(** * Handwritten-digit recogniser: offline cache, bootstrap and statistics

  A shallow embedding of the parts of the application that carry its
  caching, retry and bookkeeping behaviour:

  - [StatsManager]   (js/stats.js)        running totals of predictions;
  - [ModelManager]   (js/stats.js)        the load guard of the predictor;
  - [App]            (js/ui.js)           the bootstrap with bounded retries;
  - [ServiceWorker]  (service-worker.js)  install, activate and fetch.

  JavaScript numbers are IEEE 754 binary64 values; they are modelled by
  Rocq's primitive floats, which are the same format.  The host platform
  (network, Cache API, TensorFlow.js, DOM) is modelled by explicit
  oracles and by an event trace. *)

From Stdlib Require Import ZArith QArith Qabs Qround Floats.
From stdpp Require Import gmap strings list.

Local Open Scope Z_scope.

(* ===================================================================== *)
(** ** JavaScript numbers *)
(* ===================================================================== *)

Module JS.

(** The float that holds an integer [z] with [|z| <= 2^53]; [neg] is the
    sign given to a zero result. *)
Definition float_of_Z (neg : bool) (z : Z) : float :=
  match z with
  | Z0 => if neg then neg_zero else zero
  | Zpos _ => of_uint63 (Uint63.of_Z z)
  | Zneg _ => (- of_uint63 (Uint63.of_Z (- z)))%float
  end.

(** ECMAScript [Math.round]: the integral number closest to [x]; of two
    equally close ones the one nearer to +infinity.  NaN, the infinities,
    the zeros and every already integral number are returned as they are.
    A finite [x = (-1)^s * m * 2^e] with [e < 0] is below [2^52] in
    magnitude, so [floor (x + 1/2)] is computed exactly on integers. *)
Definition Math_round (x : float) : float :=
  match Prim2SF x with
  | S754_finite s m e =>
      if 0 <=? e then x
      else
        let k := - e in
        let num := if s then Zneg m else Zpos m in
        float_of_Z s ((2 * num + 2 ^ k) / 2 ^ (k + 1))
  | _ => x
  end.


(** The value of a finite number as a rational, read off its sign,
    mantissa and exponent; NaN and the infinities have none. *)
Definition exact (x : float) : option Q :=
  match Prim2SF x with
  | S754_zero _ => Some 0%Q
  | S754_finite s m e =>
      let num := if s then Zneg m else Zpos m in
      Some (if 0 <=? e then inject_Z (num * 2 ^ e)
            else (num # Z.to_pos (2 ^ (- e)))%Q)
  | _ => None
  end.




(** [JSON.stringify] of a number followed by [JSON.parse]: a non-finite
    number is written as [null], minus zero as [0]. *)
Definition json_number (x : float) : option float :=
  if is_nan x || is_infinity x then None
  else if is_zero x then Some zero
  else Some x.

End JS.

(* ===================================================================== *)
(** ** js/stats.js: StatsManager *)
(* ===================================================================== *)

Module StatsManager.

(** The module-level variables of the closure, and the storage slot
    [localStorage['digitRecognitionStats']]. *)
Record state := mkState {
  totalPredictions : float;
  totalConfidence : float;
  averageConfidence : float;
  storage : option (option float * option float * option float)
}.

(** The object returned by [getStats]. *)
Record stats := mkStats { total : float; average : float }.

(** [quota_ok] tells whether [localStorage.setItem] succeeds; when it
    throws, [save] logs the error and leaves the slot as it was. *)
Definition save (quota_ok : bool) (st : state) : state :=
  if quota_ok then
    mkState (totalPredictions st) (totalConfidence st) (averageConfidence st)
      (Some (JS.json_number (totalPredictions st),
             JS.json_number (totalConfidence st),
             JS.json_number (averageConfidence st)))
  else st.

Definition getStats (st : state) : stats :=
  {| total := totalPredictions st;
     average := (JS.Math_round (averageConfidence st * 10) / 10)%float |}.

Definition addPrediction (quota_ok : bool) (confidence : float) (st : state)
  : state * stats :=
  let totalPredictions' := (totalPredictions st + 1)%float in
  let totalConfidence' := (totalConfidence st + confidence)%float in
  let averageConfidence' := (totalConfidence' / totalPredictions')%float in
  let st' := save quota_ok
               (mkState totalPredictions' totalConfidence' averageConfidence'
                  (storage st)) in
  (st', getStats st').

Definition reset (quota_ok : bool) (st : state) : state * stats :=
  let st' := save quota_ok (mkState 0 0 0 (storage st)) in
  (st', getStats st').

(** The state the closure starts in. *)
Definition initial : state := mkState 0 0 0 None.

(** "Rounded to one decimal place", as the source writes it. *)
Definition round1 (x : float) : float := (JS.Math_round (x * 10) / 10)%float.


(** [load]: the parsed content of the storage slot, [null] when the slot
    is empty.  The slot holds what [save] wrote there. *)
Definition load (st : state) : option (option float * option float * option float) :=
  storage st.

(** [v || 0] for a parsed JSON number or [null]: zero, minus zero, NaN
    and [null] are falsy. *)
Definition or0 (v : option float) : float :=
  match v with
  | Some x => if is_zero x || is_nan x then 0%float else x
  | None => 0%float
  end.

Definition init (st : state) : state * stats :=
  match load st with
  | Some (tp, tc, ac) =>
      let st' := mkState (or0 tp) (or0 tc) (or0 ac) (storage st) in
      (st', getStats st')
  | None => (st, getStats st)
  end.

(** Reloading the page: the closure starts again from its initial values,
    the storage slot is kept. *)
Definition reload (st : state) : state := mkState 0 0 0 (storage st).

(** The numbers that come back from the storage slot as they went in:
    plus zero, and the finite numbers other than zero. *)
Definition storable (x : float) : Prop :=
  x = 0%float
  ∨ (is_nan x = false ∧ is_infinity x = false ∧ is_zero x = false).

End StatsManager.


(* ===================================================================== *)
(** ** Results of fallible calls *)
(* ===================================================================== *)

(** A call either returns a value or throws (a promise resolves or
  rejects). *)
Inductive result (E A : Type) : Type :=
| Ok (a : A)
| Err (e : E).
Arguments Ok {E A} a.
Arguments Err {E A} e.

(* ===================================================================== *)
(** ** js/stats.js: ModelManager *)
(* ===================================================================== *)

Module ModelManager.

Local Open Scope string_scope.

(** A TensorFlow.js model object is opaque: it is the handle given by the
    n-th call of [tf.sequential]. *)
Definition Model : Type := nat.

(** The closure's variables [model] and [isLoaded], the console, and two
    counters kept for the proofs: the number of [init] calls suspended at
    [await model.loadWeights(..)], and the number of model objects built so
    far. *)
Record state := mkState {
  model : option Model;
  isLoaded : bool;
  awaiting : nat;
  built : nat;
  console : list string
}.

Definition initial : state := mkState None false 0 0 [].

Definition log (msg : string) (st : state) : state :=
  mkState (model st) (isLoaded st) (awaiting st) (built st) (console st ++ [msg]).

(** What the host does during one call of [init]: [tf.sequential] throws,
    or [model.compile] throws, or the model is built and compiled and
    [loadWeights] then resolves ([weights_found]) or rejects. *)
Inductive outcome :=
| SequentialThrows
| CompileThrows
| Loads (weights_found : bool).

(** [init] up to its [await]: [true] when the call is now suspended at the
    [await], [false] when it has thrown (the outer [catch] logs and
    rethrows). *)
Definition init_start (o : outcome) (st : state) : bool * state :=
  let st := log "Loading MNIST model..." st in
  match o with
  | SequentialThrows =>
      (false, log "Failed to load model:" st)
  | CompileThrows =>
      let st := mkState (Some (built st)) (isLoaded st) (awaiting st)
                  (S (built st)) (console st) in
      (false, log "Failed to load model:" st)
  | Loads _ =>
      (true, mkState (Some (built st)) (isLoaded st) (S (awaiting st))
               (S (built st)) (console st))
  end.

(** [init] from its [await] to its [return true].  A rejected
    [loadWeights] is caught by the inner [try]. *)
Definition init_finish (weights_found : bool) (st : state) : state :=
  let st := log (if weights_found
                 then "Loaded pre-trained weights from cache"
                 else "No cached weights found, using initialized model") st in
  let st := mkState (model st) true (pred (awaiting st)) (built st) (console st) in
  log "Model ready" st.

(** The error [init] rethrows. *)
Inductive exn := InitFailed.

(** One call of [init] that nothing interleaves with. *)
Definition init (o : outcome) (st : state) : result exn bool * state :=
  match o with
  | Loads w => (Ok true, init_finish w (snd (init_start o st)))
  | _ => (Err InitFailed, snd (init_start o st))
  end.

Section Predict.

(** The image type, the value [predict] returns, what the host can throw,
    and the body of [predict]'s [try] block (preprocessing, inference on
    the model object, ranking), which runs on the host. *)
Variables ImageData Prediction HostError : Type.
Variable try_block : Model -> ImageData -> result HostError Prediction.

Inductive error :=
| Error (msg : string)
| Thrown (e : HostError).

(** [predict]; the second component counts the runs of the [try]
    block. *)
Definition predict (imageData : ImageData) (st : state)
  : result error Prediction * nat :=
  if negb (isLoaded st) || negb (bool_decide (is_Some (model st))) then
    (Err (Error "Model not loaded"), 0%nat)
  else
    match model st with
    | Some m =>
        match try_block m imageData with
        | Ok p => (Ok p, 1%nat)
        | Err e => (Err (Thrown e), 1%nat)
        end
    | None => (Err (Error "Model not loaded"), 0%nat)
    end.

End Predict.

Arguments Error {HostError} msg.
Arguments Thrown {HostError} e.
Arguments predict {ImageData Prediction HostError} try_block imageData st.

(** The moves of the module between two suspension points; [predict]
    changes none of the variables. *)
Inductive step : state -> state -> Prop :=
| step_start o st : step st (snd (init_start o st))
| step_finish w st : (0 < awaiting st)%nat -> step st (init_finish w st).

Definition reachable (st : state) : Prop := rtc step initial st.

(** [init] has completed successfully when it has logged its last line. *)
Definition init_completed (st : state) : Prop := "Model ready" ∈ console st.

(** What holds between two suspension points: [isLoaded] is set exactly
    when some [init] has logged its last line, and a model object exists
    as soon as an [init] is suspended or has completed. *)
Definition invariant (st : state) : Prop :=
  (isLoaded st = true ↔ init_completed st)
  ∧ ((0 < awaiting st)%nat ∨ isLoaded st = true → is_Some (model st)).

End ModelManager.

(* ===================================================================== *)
(** ** js/ui.js: the main application and its bootstrap *)
(* ===================================================================== *)

Module App.

Definition MAX_ATTEMPTS : Z := 3.

(** The texts given to [updateLoadingStatus]. *)
Inductive status :=
| LoadingAIModel                       (* 'Loading AI Model...' *)
| Retrying (attempt max : Z).          (* `Retrying... (Attempt a/m)` *)

Inductive collaborator := CanvasManager | UIManager | StatsManager.

(** What the bootstrap does that can be seen from outside, in order. *)
Inductive event :=
| UpdateLoadingStatus (s : status)
| ModelManagerInit
| Sleep (ms : Z)
| Init (c : collaborator)
| HideLoading
| ShowApp
| ShowError.

(** The closure's variables [modelLoaded] and [currentAttempt], the state
    of the model manager, the number of [ModelManager.init] calls made (it
    selects the host's answer) and the events so far. *)
Record state := mkState {
  modelLoaded : bool;
  currentAttempt : Z;
  manager : ModelManager.state;
  calls : nat;
  trace : list event
}.

(** The host: how the n-th call of [ModelManager.init] ends, and which
    collaborators throw from their [init]. *)
Record host := mkHost {
  model_init : nat -> ModelManager.outcome;
  throws : collaborator -> bool
}.

Definition initial : state := mkState false 1 ModelManager.initial 0 [].

Definition emit (e : event) (st : state) : state :=
  mkState (modelLoaded st) (currentAttempt st) (manager st) (calls st)
    (trace st ++ [e]).

Definition showError (st : state) : state := emit ShowError st.

(** [initializeApp]: the three collaborators in order; whatever one of
    them throws is caught here, so the function itself never throws. *)
Definition initializeApp (h : host) (st : state) : state :=
  let st := emit (Init CanvasManager) st in
  if throws h CanvasManager then showError st else
  let st := emit (Init UIManager) st in
  if throws h UIManager then showError st else
  let st := emit (Init StatsManager) st in
  if throws h StatsManager then showError st else
  emit ShowApp (emit HideLoading st).

(** [Math.pow(2, currentAttempt - 2) * 1000], in milliseconds.
    [currentAttempt] starts at 1 and has just been incremented, so the
    exponent is not negative. *)
Definition delay (currentAttempt : Z) : Z := 2 ^ (currentAttempt - 2) * 1000.

(** [loadModel]; [fuel] bounds the depth of its recursive calls. *)
Fixpoint loadModel_rec (fuel : nat) (h : host) (st : state) : option state :=
  match fuel with
  | O => None
  | S fuel =>
      let st := emit (UpdateLoadingStatus LoadingAIModel) st in
      let '(r, m) := ModelManager.init (model_init h (calls st)) (manager st) in
      let st := mkState (modelLoaded st) (currentAttempt st) m (S (calls st))
                  (trace st ++ [ModelManagerInit]) in
      match r with
      | Ok _ =>
          let st := mkState true (currentAttempt st) (manager st) (calls st)
                      (trace st) in
          Some (initializeApp h st)
      | Err _ =>
          if currentAttempt st <? MAX_ATTEMPTS then
            let st := mkState (modelLoaded st) (currentAttempt st + 1)
                        (manager st) (calls st) (trace st) in
            let st := emit (UpdateLoadingStatus
                              (Retrying (currentAttempt st) MAX_ATTEMPTS)) st in
            let st := emit (Sleep (delay (currentAttempt st))) st in
            loadModel_rec fuel h st
          else
            Some (showError st)
      end
  end.

(** One recursive call per increment of [currentAttempt], which stops at
    [MAX_ATTEMPTS]. *)
Definition loadModel (h : host) (st : state) : option state :=
  loadModel_rec (S (Z.to_nat (MAX_ATTEMPTS - currentAttempt st))) h st.

(** [init] once the document is ready. *)
Definition init (h : host) : option state := loadModel h initial.

(** The screen the user is left with. *)
Inductive bootstrap := Loading | Ready | Failed.

Definition final (st : state) : bootstrap :=
  match last (trace st) with
  | Some ShowApp => Ready
  | Some ShowError => Failed
  | _ => Loading
  end.

Definition is_attempt (e : event) : bool :=
  match e with ModelManagerInit => true | _ => false end.

Definition attempts (t : list event) : nat := length (filter is_attempt t).

Fixpoint delays (t : list event) : list Z :=
  match t with
  | [] => []
  | Sleep ms :: t => ms :: delays t
  | _ :: t => delays t
  end.

End App.

(* ===================================================================== *)
(** ** service-worker.js *)
(* ===================================================================== *)

Module ServiceWorker.

Local Open Scope string_scope.

Definition CACHE_NAME : string := "digit-recognition-v1".

Definition STATIC_CACHE_FILES : list string :=
  [ "./index.html";
    "./manifest.json";
    "./css/styles.css";
    "./js/app.js";
    "./js/canvas.js";
    "./js/model.js";
    "./js/ui.js";
    "./js/stats.js" ].

Definition CDN_CACHE_FILES : list string :=
  [ "https://cdn.jsdelivr.net/npm/fabric@5.3.0/dist/fabric.min.js";
    "https://cdn.jsdelivr.net/npm/@tensorflow/tfjs@4.11.0/dist/tf.min.js" ].

(** *** The host: responses, the network, the Cache API *)

Record Response := mkResponse { status : Z; body : string }.

(** [response.ok]: a status in the range 200-299. *)
Definition ok (r : Response) : bool :=
  (200 <=? status r)%Z && (status r <=? 299)%Z.

(** A request is identified by its URL, which is absolute ([request.url]
    is the URL after resolution); [origin] is what
    [new URL(request.url).origin] evaluates to. *)
Record Request := mkRequest { url : string; origin : string }.

(** [fetch]: the response of the network, or [None] when the promise
    rejects. *)
Definition network : Type := string -> option Response.

(** One cache maps request identities to responses; the cache storage
    holds the named caches in the order of their creation. *)
Abbreviation Cache := (gmap string Response).
Abbreviation CacheStorage := (list (string * gmap string Response)).

(** [caches.keys()]. *)
Definition keys (caches : CacheStorage) : list string := fst <$> caches.

(** [caches.open(name)] creates the cache when there is none of that
    name. *)
Definition open (name : string) (caches : CacheStorage) : CacheStorage :=
  if bool_decide (name ∈ keys caches) then caches else caches ++ [(name, ∅)].

(** [caches.delete(name)]. *)
Definition delete (name : string) (caches : CacheStorage) : CacheStorage :=
  filter (λ c, c.1 ≠ name) caches.

(** [caches.match(request)]: the first match, in creation order. *)
Fixpoint match_ (u : string) (caches : CacheStorage) : option Response :=
  match caches with
  | [] => None
  | (_, c) :: caches =>
      match c !! u with
      | Some r => Some r
      | None => match_ u caches
      end
  end.

(** [cache.put(request, response)] on the cache called [name]. *)
Definition put (name u : string) (r : Response) (caches : CacheStorage)
  : CacheStorage :=
  (λ c, if bool_decide (c.1 = name) then (c.1, <[u := r]> (c.2)) else c) <$> caches.

(** The responses [cache.add] and [cache.addAll] accept: an [ok] status
    other than 206 (Partial Content). *)
Definition addable (r : Response) : bool := ok r && negb (status r =? 206)%Z.

(** Fetching all of a list of requests, given by their URLs: the
    responses, or nothing when a fetch rejects or a response is not
    [addable]. *)
Fixpoint fetchAll (net : network) (urls : list string)
  : option (list (string * Response)) :=
  match urls with
  | [] => Some []
  | u :: urls =>
      match net u with
      | Some r =>
          if addable r then
            match fetchAll net urls with
            | Some l => Some ((u, r) :: l)
            | None => None
            end
          else None
      | None => None
      end
  end.

Definition putAll (name : string) (l : list (string * Response))
    (caches : CacheStorage) : CacheStorage :=
  foldl (λ cs e, put name e.1 e.2 cs) caches l.

(** [cache.addAll(urls)].  Each string is made a request, whose URL is the
    string resolved against the location of the worker ([resolve]: what
    [new Request(url).url] evaluates to in the worker).  Every request is
    fetched; the promise rejects when a fetch rejects or a response is not
    [addable], and nothing is stored then; otherwise each response is
    stored under its request, that is under the resolved URL. *)
Definition addAll (resolve : string → string) (net : network) (name : string)
    (urls : list string) (caches : CacheStorage) : option CacheStorage :=
  match fetchAll net (resolve <$> urls) with
  | Some l => Some (putAll name l caches)
  | None => None
  end.

(** [cache.add(url)] is [cache.addAll([url])]. *)
Definition add (resolve : string → string) (net : network) (name u : string)
    (caches : CacheStorage) : option CacheStorage :=
  addAll resolve net name [u] caches.

(** *** install *)

(** What [event.waitUntil] is given: whether its promise resolved, whether
    [self.skipWaiting()] was reached, and the cache storage left behind. *)
Record installed := mkInstalled {
  resolved : bool;
  skipWaiting : bool;
  store : CacheStorage
}.

(** [cache.add(url).catch(err => console.log(..))]: never rejects. *)
Definition add_or_log (resolve : string → string) (net : network)
    (name : string) (caches : CacheStorage) (u : string) : CacheStorage :=
  match add resolve net name u caches with
  | Some caches' => caches'
  | None => caches
  end.

Definition oninstall (resolve : string → string) (net : network)
    (caches : CacheStorage) : installed :=
  let caches := open CACHE_NAME caches in
  match addAll resolve net CACHE_NAME STATIC_CACHE_FILES caches with
  | None => mkInstalled false false caches
  | Some caches =>
      let caches := open CACHE_NAME caches in
      let caches :=
        foldl (add_or_log resolve net CACHE_NAME) caches CDN_CACHE_FILES in
      mkInstalled true true caches
  end.

(** *** activate *)

Definition onactivate (caches : CacheStorage) : CacheStorage :=
  foldl (λ cs cache,
           if bool_decide (cache ≠ CACHE_NAME) then delete cache cs else cs)
    caches (keys caches).

(** *** fetch *)

Inductive error :=
| FetchFailed                 (* what [fetch] rejected with *)
| Error (msg : string).       (* [new Error(msg)] *)

(** What [event.respondWith] is given, the requests sent to the network,
    and the cache storage once the detached cache write has settled. *)
Record responded := mkResponded {
  response : result error Response;
  fetched : list string;
  caches_after : CacheStorage
}.

(** "Cache successful responses": the same lines in both branches. *)
Definition cache_successful (request : Request) (r : Response)
    (caches : CacheStorage) : CacheStorage :=
  if (status r =? 200)%Z then
    put CACHE_NAME (url request) r (open CACHE_NAME caches)
  else caches.

Definition onfetch (location_origin : string) (net : network)
    (request : Request) (caches : CacheStorage) : responded :=
  if bool_decide (origin request ≠ location_origin) then
    (* CDN resources: cache first *)
    match match_ (url request) caches with
    | Some cached => mkResponded (Ok cached) [] caches
    | None =>
        match net (url request) with
        | Some r =>
            mkResponded (Ok r) [url request] (cache_successful request r caches)
        | None => mkResponded (Err FetchFailed) [url request] caches
        end
    end
  else
    (* local resources: network first *)
    match net (url request) with
    | Some r =>
        mkResponded (Ok r) [url request] (cache_successful request r caches)
    | None =>
        match match_ (url request) caches with
        | Some cached => mkResponded (Ok cached) [url request] caches
        | None =>
            mkResponded (Err (Error "No cached version available"))
              [url request] caches
        end
    end.

(** An entry of the cache storage: the cache [name] holds [r] for [u]. *)
Definition holds (caches : CacheStorage) (name u : string) (r : Response) : Prop :=
  ∃ c, (name, c) ∈ caches ∧ c !! u = Some r.

(** Every entry of [after] was in [before] or has a successful status. *)
Definition only_adds_ok (before after : CacheStorage) : Prop :=
  ∀ name u r, holds after name u r → holds before name u r ∨ ok r = true.

(** What can go wrong with one URL of [cache.addAll]. *)
Definition uncacheable (net : network) (u : string) : Prop :=
  net u = None ∨ ∃ r, net u = Some r ∧ addable r = false.

Definition cacheable (net : network) (u : string) : Prop :=
  ∃ r, net u = Some r ∧ addable r = true.

End ServiceWorker.

(* ===================================================================== *)
(** ** js/stats.js: CanvasManager *)
(* ===================================================================== *)

Module CanvasManager.

Definition MAX_HISTORY : nat := 20.

(** A path drawn on the canvas is a Fabric.js object; only its identity
    matters here. *)
Definition Path : Type := nat.

(** The [fabric.Canvas]: the objects on it, oldest first, and the width of
    its drawing brush.  Its background is always white. *)
Record Canvas := mkCanvas { objects : list Path; brushWidth : Z }.

(** What [undo] and [clear] throw when there is no canvas yet. *)
Inductive exn := TypeError.

Section Listener.

(** The state that the listener of canvas changes acts on. *)
Variable L : Type.

(** The closure's variables. *)
Record state := mkState {
  fabricCanvas : option Canvas;
  drawingHistory : list Z;
  isEmpty : bool;
  currentBrushSize : Z;
  onCanvasChange : option (bool → L → L)
}.

Definition initial : state := mkState None [] true 8 None.

(** [init]: a new canvas with the current brush size. *)
Definition init (st : state) : state :=
  mkState (Some (mkCanvas [] (currentBrushSize st)))
    (drawingHistory st) (isEmpty st) (currentBrushSize st) (onCanvasChange st).

(** [if (onCanvasChange) onCanvasChange(isEmpty)]. *)
Definition notify (st : state) (l : L) : L :=
  match onCanvasChange st with
  | Some callback => callback (isEmpty st) l
  | None => l
  end.

(** [saveState]; [now] is [Date.now()]. *)
Definition saveState (now : Z) (st : state) : state :=
  let h := drawingHistory st ++ [now] in
  let h := if (MAX_HISTORY <? length h)%nat then tail h else h in
  mkState (fabricCanvas st) h (isEmpty st) (currentBrushSize st)
    (onCanvasChange st).

(** A stroke: Fabric.js adds the path to the canvas and fires
    ['path:created'], which the handler installed by [init] answers. *)
Definition path_created (now : Z) (p : Path) (st : state) (l : L) : state * L :=
  match fabricCanvas st with
  | None => (st, l)
  | Some c =>
      let st := mkState (Some (mkCanvas (objects c ++ [p]) (brushWidth c)))
                  (drawingHistory st) false (currentBrushSize st)
                  (onCanvasChange st) in
      let st := saveState now st in
      (st, notify st l)
  end.

Definition setBrushSize (size : Z) (st : state) : state :=
  mkState
    (match fabricCanvas st with
     | Some c => Some (mkCanvas (objects c) size)
     | None => None
     end)
    (drawingHistory st) (isEmpty st) size (onCanvasChange st).

Definition undo (st : state) (l : L) : result exn (state * L) :=
  match fabricCanvas st with
  | None => Err TypeError
  | Some c =>
      match objects c with
      | [] => Ok (st, l)
      | _ :: _ =>
          let c := mkCanvas (removelast (objects c)) (brushWidth c) in
          let h := removelast (drawingHistory st) in
          match objects c with
          | [] =>
              let st := mkState (Some c) h true (currentBrushSize st)
                          (onCanvasChange st) in
              Ok (st, notify st l)
          | _ :: _ =>
              Ok (mkState (Some c) h (isEmpty st) (currentBrushSize st)
                    (onCanvasChange st), l)
          end
      end
  end.

Definition clear (st : state) (l : L) : result exn (state * L) :=
  match fabricCanvas st with
  | None => Err TypeError
  | Some c =>
      let st := mkState (Some (mkCanvas [] (brushWidth c))) [] true
                  (currentBrushSize st) (onCanvasChange st) in
      Ok (st, notify st l)
  end.

Definition isCanvasEmpty (st : state) : bool := isEmpty st.

(** [getImageData]: the canvas is rendered when the function is called
    ([toDataURL]); the image the promise later resolves to is determined by
    the objects on the canvas at that time, and is represented by them. *)
Definition getImageData (st : state) : result exn (list Path) :=
  match fabricCanvas st with
  | None => Err TypeError
  | Some c => Ok (objects c)
  end.

Definition setOnCanvasChange (callback : bool → L → L) (st : state) : state :=
  mkState (fabricCanvas st) (drawingHistory st) (isEmpty st)
    (currentBrushSize st) (Some callback).

(** What can happen to the canvas manager once [init] has run. *)
Inductive op :=
| Stroke (now : Z) (p : Path)
| Undo
| Clear
| SetBrushSize (size : Z)
| SetOnCanvasChange (callback : bool → L → L).

(** One operation; an exception leaves everything as it was. *)
Definition apply_op (o : op) (w : state * L) : state * L :=
  match o with
  | Stroke now p => path_created now p w.1 w.2
  | Undo => match undo w.1 w.2 with Ok w' => w' | Err _ => w end
  | Clear => match clear w.1 w.2 with Ok w' => w' | Err _ => w end
  | SetBrushSize size => (setBrushSize size w.1, w.2)
  | SetOnCanvasChange callback => (setOnCanvasChange callback w.1, w.2)
  end.

Definition run (ops : list op) (w : state * L) : state * L :=
  foldl (λ w o, apply_op o w) w ops.

(** The objects on the canvas; none without a canvas. *)
Definition strokes (st : state) : list Path :=
  match fabricCanvas st with
  | Some c => objects c
  | None => []
  end.

(** What the variables keep to once [init] has run: there is a canvas, the
    history is no longer than [MAX_HISTORY] nor than the list of objects,
    and [isEmpty] tells whether the canvas has no object. *)
Definition consistent (st : state) : Prop :=
  is_Some (fabricCanvas st)
  ∧ (length (drawingHistory st) ≤ MAX_HISTORY)%nat
  ∧ (length (drawingHistory st) ≤ length (strokes st))%nat
  ∧ (isEmpty st = true ↔ strokes st = []).

End Listener.

Arguments mkState {L} _ _ _ _ _.
Arguments consistent {L} st.
Arguments fabricCanvas {L} _.
Arguments drawingHistory {L} _.
Arguments isEmpty {L} _.
Arguments currentBrushSize {L} _.
Arguments onCanvasChange {L} _.
Arguments init {L} st.
Arguments notify {L} st l.
Arguments saveState {L} now st.
Arguments path_created {L} now p st l.
Arguments setBrushSize {L} size st.
Arguments undo {L} st l.
Arguments clear {L} st l.
Arguments isCanvasEmpty {L} st.
Arguments getImageData {L} st.
Arguments setOnCanvasChange {L} callback st.
Arguments Stroke {L} now p.
Arguments Undo {L}.
Arguments Clear {L}.
Arguments SetBrushSize {L} size.
Arguments SetOnCanvasChange {L} callback.
Arguments apply_op {L} o w.
Arguments run {L} ops w.
Arguments strokes {L} st.

End CanvasManager.

(* ===================================================================== *)
(** ** js/ui.js: UIManager *)
(* ===================================================================== *)

Module UIManager.

Local Open Scope string_scope.

(** The closure's variable [isPredicting] and the parts of the page that
    the handlers drive: whether the recognise button is disabled, the text
    of its label (if it has one), the messages given to [showToast] and the
    stats given to [updateStatsDisplay], oldest first.  The result panel
    and the animations are presentation and are left out. *)
Record ui := mkUi {
  isPredicting : bool;
  disabled : bool;
  label : option string;
  toasts : list string;
  displayed : list StatsManager.stats
}.

Definition enableRecognizeButton (u : ui) : ui :=
  mkUi (isPredicting u) false (label u) (toasts u) (displayed u).

Definition disableRecognizeButton (u : ui) : ui :=
  mkUi (isPredicting u) true (label u) (toasts u) (displayed u).

(** [if (btnLabel) btnLabel.textContent = text]. *)
Definition setLabel (text : string) (u : ui) : ui :=
  mkUi (isPredicting u) (disabled u)
    (match label u with Some _ => Some text | None => None end)
    (toasts u) (displayed u).

Definition showToast (message : string) (u : ui) : ui :=
  mkUi (isPredicting u) (disabled u) (label u) (toasts u ++ [message])
    (displayed u).

Definition updateStatsDisplay (s : StatsManager.stats) (u : ui) : ui :=
  mkUi (isPredicting u) (disabled u) (label u) (toasts u) (displayed u ++ [s]).

(** The callback that [init] gives to [CanvasManager.setOnCanvasChange]. *)
Definition canvas_changed (isEmpty : bool) (u : ui) : ui :=
  if isEmpty then disableRecognizeButton u else enableRecognizeButton u.

(** What [ModelManager.predict] resolves to, as far as the handlers read
    it: [topPrediction]. *)
Record Prediction := mkPrediction { digit : Z; confidence : float }.

(** The page and the managers behind it, and the images of the calls of
    [handleRecognize] that are suspended at an [await]. *)
Record world := mkWorld {
  page : ui;
  canvas : CanvasManager.state ui;
  stats : StatsManager.state;
  manager : ModelManager.state;
  analysing : list (list CanvasManager.Path)
}.

(** [UIManager.init]. *)
Definition init (w : world) : world :=
  let u := disableRecognizeButton (page w) in
  let c := CanvasManager.setOnCanvasChange canvas_changed (canvas w) in
  let u := updateStatsDisplay (StatsManager.getStats (stats w)) u in
  mkWorld u c (stats w) (manager w) (analysing w).

(** The [try] block of [initializeApp] when nothing throws, on a freshly
    loaded page: [CanvasManager.init(); UIManager.init();
    StatsManager.init()].  The page comes with a button (disabled or not,
    labelled or not), the storage slot with what earlier visits left, and
    the model manager as the bootstrap left it. *)
Definition startup (disabled0 : bool) (label0 : option string)
    (storage0 : option (option float * option float * option float))
    (m : ModelManager.state) : world :=
  let w := mkWorld (mkUi false disabled0 label0 [] [])
             (CanvasManager.init (CanvasManager.initial ui))
             (StatsManager.mkState 0 0 0 storage0) m [] in
  let w := init w in
  mkWorld (page w) (canvas w) (fst (StatsManager.init (stats w))) (manager w)
    (analysing w).

(** The [finally] block of [handleRecognize]. *)
Definition finally (u : ui) : ui :=
  setLabel "Recognize" (mkUi false false (label u) (toasts u) (displayed u)).

(** Its [catch] block, then [finally]. *)
Definition catch (u : ui) : ui :=
  finally (showToast "⚠️ Prediction failed, try again" u).

(** [handleRecognize] up to its first [await]. *)
Definition handleRecognize (w : world) : world :=
  if isPredicting (page w) then w
  else
    let u := page w in
    let u := mkUi true true (label u) (toasts u) (displayed u) in
    let u := setLabel "Analyzing..." u in
    match CanvasManager.getImageData (canvas w) with
    | Err _ => mkWorld (catch u) (canvas w) (stats w) (manager w) (analysing w)
    | Ok imageData =>
        mkWorld u (canvas w) (stats w) (manager w) (analysing w ++ [imageData])
    end.

Section Resume.

(** What the host can throw from the body of [predict], and that body. *)
Variable HostError : Type.
Variable try_block :
  ModelManager.Model → list CanvasManager.Path → result HostError Prediction.

(** The rest of the [i]-th suspended call of [handleRecognize]: the image
    has loaded or not ([image_ok]); then [ModelManager.predict], the stats
    and the displays.  What [predict] answers depends on the image and on
    the model manager only, and no handler changes the model manager, so
    the await of the image and the await of [predict] are taken as one
    suspension, which ends when [predict] settles. *)
Definition handleRecognize_resume (i : nat) (image_ok quota_ok : bool)
    (w : world) : world :=
  match analysing w !! i with
  | None => w
  | Some imageData =>
      let rest := delete i (analysing w) in
      if image_ok then
        match fst (ModelManager.predict try_block imageData (manager w)) with
        | Ok result =>
            let '(st, s) :=
              StatsManager.addPrediction quota_ok (confidence result) (stats w) in
            let u := updateStatsDisplay s (page w) in
            let u := showToast "✨ Prediction complete!" u in
            mkWorld (finally u) (canvas w) st (manager w) rest
        | Err _ =>
            mkWorld (catch (page w)) (canvas w) (stats w) (manager w) rest
        end
      else mkWorld (catch (page w)) (canvas w) (stats w) (manager w) rest
  end.

Definition with_canvas (w : world) (r : result CanvasManager.exn
    (CanvasManager.state ui * ui)) : option world :=
  match r with
  | Ok (c, u) => Some (mkWorld u c (stats w) (manager w) (analysing w))
  | Err _ => None
  end.

(** [handleClear]: when [CanvasManager.clear] throws, so does the
    handler, and nothing has changed. *)
Definition handleClear (w : world) : world :=
  match with_canvas w (CanvasManager.clear (canvas w) (page w)) with
  | Some w =>
      mkWorld (disableRecognizeButton (page w)) (canvas w) (stats w)
        (manager w) (analysing w)
  | None => w
  end.

Definition handleUndo (w : world) : world :=
  match with_canvas w (CanvasManager.undo (canvas w) (page w)) with
  | Some w => w
  | None => w
  end.

Definition handleBrushSizeChange (size : Z) (w : world) : world :=
  mkWorld (page w) (CanvasManager.setBrushSize size (canvas w)) (stats w)
    (manager w) (analysing w).

Definition handleResetStats (quota_ok : bool) (w : world) : world :=
  let '(st, s) := StatsManager.reset quota_ok (stats w) in
  let u := showToast "Statistics reset" (updateStatsDisplay s (page w)) in
  mkWorld u (canvas w) st (manager w) (analysing w).

(** What happens on the page once it is shown. *)
Inductive event :=
| Draw (now : Z) (p : CanvasManager.Path)
| ClickRecognize
| Resume (i : nat) (image_ok quota_ok : bool)
| ClickClear
| ClickUndo
| ClickBrush (size : Z)
| ClickResetStats (quota_ok : bool).

(** A disabled button receives no click. *)
Definition react (e : event) (w : world) : world :=
  match e with
  | Draw now p =>
      let '(c, u) := CanvasManager.path_created now p (canvas w) (page w) in
      mkWorld u c (stats w) (manager w) (analysing w)
  | ClickRecognize => if disabled (page w) then w else handleRecognize w
  | Resume i image_ok quota_ok => handleRecognize_resume i image_ok quota_ok w
  | ClickClear => handleClear w
  | ClickUndo => handleUndo w
  | ClickBrush size => handleBrushSizeChange size w
  | ClickResetStats quota_ok => handleResetStats quota_ok w
  end.

Definition session (es : list event) (w : world) : world :=
  foldl (λ w e, react e w) w es.

End Resume.

Arguments handleRecognize_resume {HostError} try_block i image_ok quota_ok w.
Arguments react {HostError} try_block e w.
Arguments session {HostError} try_block es w.

(** What a session keeps to: the listener of the canvas is the page's, the
    canvas manager is consistent, and at most one call of
    [handleRecognize] is suspended, exactly when [isPredicting] is set. *)
Definition well_formed (w : world) : Prop :=
  CanvasManager.onCanvasChange (canvas w) = Some canvas_changed
  ∧ CanvasManager.consistent (canvas w)
  ∧ (length (analysing w) ≤ 1)%nat
  ∧ (isPredicting (page w) = true ↔ analysing w ≠ []).

End UIManager.

(* ===================================================================== *)
(** ** Concrete hosts and cache storages *)
(* ===================================================================== *)

Module Sample.

Local Open Scope string_scope.

(** A host on which the model never loads. *)
Definition model_down : App.host :=
  App.mkHost (λ _, ModelManager.SequentialThrows) (λ _, false).

(** A host on which the model loads at the second call and the UI manager
    then throws. *)
Definition ui_broken : App.host :=
  App.mkHost
    (λ n, match n with
          | O => ModelManager.CompileThrows
          | _ => ModelManager.Loads false
          end)
    (λ c, match c with App.UIManager => true | _ => false end).

(** The state of the bootstrap after one failed attempt on [ui_broken]. *)
Definition after_first_failure : App.state :=
  App.mkState false 2
    (snd (ModelManager.init ModelManager.CompileThrows ModelManager.initial))
    1
    [ App.UpdateLoadingStatus App.LoadingAIModel; App.ModelManagerInit;
      App.UpdateLoadingStatus (App.Retrying 2 3); App.Sleep 1000 ].

(** The model manager after one successful [init]. *)
Definition loaded : ModelManager.state :=
  ModelManager.init_finish true
    (snd (ModelManager.init_start (ModelManager.Loads true) ModelManager.initial)).

Definition try_block (m : ModelManager.Model) (img : list Z)
  : result string (Z * float) := Ok (7, 0x1.8p+6%float).

Definition app_origin : string := "https://digits.example".
Definition cdn_origin : string := "https://cdn.jsdelivr.net".
Definition tf_url : string :=
  "https://cdn.jsdelivr.net/npm/@tensorflow/tfjs@4.11.0/dist/tf.min.js".
Definition app_js : string := "https://digits.example/js/app.js".
Definition new_js : string := "https://digits.example/js/new.js".

Definition cached_tf : ServiceWorker.Response := ServiceWorker.mkResponse 200 "tf 4.11.0".
Definition stale_app : ServiceWorker.Response := ServiceWorker.mkResponse 200 "app v1".
Definition fresh_app : ServiceWorker.Response := ServiceWorker.mkResponse 200 "app v2".

Definition warm : ServiceWorker.CacheStorage :=
  [ (ServiceWorker.CACHE_NAME, <[tf_url := cached_tf]> {[app_js := stale_app]}) ].

Definition three_generations : ServiceWorker.CacheStorage :=
  [ ("digit-recognition-v0", {[app_js := stale_app]});
    (ServiceWorker.CACHE_NAME, {[app_js := fresh_app]});
    ("another-cache", ∅) ].

Definition offline : ServiceWorker.network := λ _, None.
Definition online : ServiceWorker.network := λ _, Some fresh_app.

(** URL resolution in a worker installed at
    [https://digits.example/service-worker.js], for the two forms of
    string that the worker's lists use: a path relative to the worker's
    directory, and an absolute URL. *)
Definition resolve (u : string) : string :=
  if String.prefix "./" u
  then "https://digits.example/" ++ String.substring 2 (String.length u - 2)%nat u
  else u.

(** The application shell is served, the CDN is unreachable. *)
Definition shell_only : ServiceWorker.network :=
  λ u, if bool_decide (u ∈ resolve <$> ServiceWorker.STATIC_CACHE_FILES)
       then Some (ServiceWorker.mkResponse 200 u) else None.

(** Everything is served, except that one file of the shell is missing. *)
Definition missing_model_js : ServiceWorker.network :=
  λ u, if bool_decide (u = "https://digits.example/js/model.js")
       then Some (ServiceWorker.mkResponse 404 "Not Found")
       else Some (ServiceWorker.mkResponse 200 u).

(** A storage that holds only the current generation, with the
    application script. *)
Definition current_only : ServiceWorker.CacheStorage :=
  [ (ServiceWorker.CACHE_NAME, {[app_js := stale_app]}) ].

(** The CDN answers with the TensorFlow.js bundle. *)
Definition cdn_up : ServiceWorker.network := λ _, Some cached_tf.

(** A host on which the model loads at the second call and no
    collaborator throws. *)
Definition second_try : App.host :=
  App.mkHost
    (λ n, match n with
          | O => ModelManager.SequentialThrows
          | _ => ModelManager.Loads false
          end)
    (λ _, false).




(** Totals of three predictions. *)
Definition three_predictions : StatsManager.state :=
  StatsManager.mkState 3 241.5 80.5 None.

(** A canvas manager, just initialised, whose listener records what it is
    told. *)
Definition recording_canvas : CanvasManager.state (list bool) :=
  CanvasManager.setOnCanvasChange (λ b l, (l ++ [b])%list)
    (CanvasManager.init (CanvasManager.initial (list bool))).

(** The page as it starts, with nothing stored. *)
Definition fresh_page : UIManager.world :=
  UIManager.startup false (Some "Recognize") None loaded.

(** The body of [predict] on a host that always sees a seven. *)
Definition sees_seven (m : ModelManager.Model) (img : list CanvasManager.Path)
  : result string UIManager.Prediction :=
  Ok (UIManager.mkPrediction 7 96.5).

(** The page after one stroke and a click on the recognise button. *)
Definition analysing_page : UIManager.world :=
  UIManager.session sees_seven
    [UIManager.Draw 1700000000000 1%nat; UIManager.ClickRecognize] fresh_page.

End Sample.

(* ===================================================================== *)
(** * Properties *)
(* ===================================================================== *)

(** ** StatsManager *)

Section StatsManagerFacts.

Import StatsManager.


Example Math_round_half_up : JS.Math_round 2.5 = 3%float.
Proof. vm_compute. reflexivity. Qed.

Example Math_round_neg_half : JS.Math_round (-2.5) = (-2)%float.
Proof. vm_compute. reflexivity. Qed.

Example Math_round_below_half : JS.Math_round 0x1.fffffffffffffp-2 = 0%float.
Proof. vm_compute. reflexivity. Qed.

Example Math_round_neg_quarter : JS.Math_round (-0.25) = neg_zero.
Proof. vm_compute. reflexivity. Qed.

Example Math_round_integral : JS.Math_round 0x1p60 = 0x1p60%float.
Proof. vm_compute. reflexivity. Qed.

Example Math_round_nan : JS.Math_round nan = nan.
Proof. vm_compute. reflexivity. Qed.

Example addPrediction_twice :
  snd (addPrediction true 90.25 (fst (addPrediction true 80.5 initial)))
  = mkStats 2 (854 / 10).
Proof. vm_compute. reflexivity. Qed.


Lemma save_totals q st :
  totalPredictions (save q st) = totalPredictions st
  ∧ totalConfidence (save q st) = totalConfidence st
  ∧ averageConfidence (save q st) = averageConfidence st.
Proof. destruct q; repeat split. Qed.

(** *** [Math.round] against the nearest integer *)




(** *** Counts below [2^53] are incremented exactly *)

Lemma digits2_pos_upper m : Zpos m < 2 ^ Zpos (digits2_pos m).
Proof.
  induction m as [m IH|m IH|]; cbn [digits2_pos]; [| |done].
  - rewrite Pos2Z.inj_succ, Z.pow_succ_r by lia. lia.
  - rewrite Pos2Z.inj_succ, Z.pow_succ_r by lia. lia.
Qed.

























End StatsManagerFacts.

(** ** ModelManager *)

Section ModelManagerFacts.

Import ModelManager.
Local Open Scope string_scope.

Context {ImageData Prediction HostError : Type}.
Variable try_block : Model -> ImageData -> result HostError Prediction.

Lemma invariant_initial : invariant initial.
Proof.
  split.
  - split; [discriminate|]. unfold init_completed. cbn. set_solver.
  - cbn. intros [H|H]; [lia|discriminate].
Qed.

Lemma invariant_step st st' : invariant st → step st st' → invariant st'.
Proof.
  unfold invariant, init_completed.
  intros [Hl Hm] Hs. destruct Hs as [o st|w st Hpos].
  - destruct o; cbn; rewrite ?elem_of_app, ?list_elem_of_singleton;
      (split; [rewrite Hl; intuition discriminate|]);
      try (intros _; eexists; reflexivity); exact Hm.
  - cbn. rewrite ?elem_of_app, ?list_elem_of_singleton. split.
    + intuition.
    + intros _. apply Hm. by left.
Qed.

Lemma reachable_invariant st : reachable st → invariant st.
Proof.
  unfold reachable. revert st.
  apply (rtc_ind_r (λ st, invariant st)).
  - apply invariant_initial.
  - intros y z _ Hstep IH. exact (invariant_step y z IH Hstep).
Qed.

Lemma predict_unloaded (img : ImageData) st :
  isLoaded st = false →
  predict try_block img st = (Err (Error "Model not loaded"), 0%nat).
Proof. intros H. unfold predict. rewrite H. reflexivity. Qed.

Lemma predict_loaded (img : ImageData) st :
  isLoaded st = true → is_Some (model st) →
  fst (predict try_block img st) ≠ Err (Error "Model not loaded").
Proof.
  intros H [m Hm]. unfold predict. rewrite H, Hm. cbn.
  destruct (try_block m img); cbn; discriminate.
Qed.

(** C9. In every state the module can be in, and for every image:
    as long as no [init] has completed successfully, [predict] rejects
    with the error 'Model not loaded' and does not run its prediction
    block; once an [init] has completed successfully, [predict] does not
    reject with this error. *)
Theorem predict_requires_init :
  ∀ (st : state) (imageData : ImageData),
    reachable st →
    (¬ init_completed st →
       predict try_block imageData st = (Err (Error "Model not loaded"), 0%nat))
    ∧ (init_completed st →
       fst (predict try_block imageData st) ≠ Err (Error "Model not loaded")).
Proof.
  intros st img Hr. destruct (reachable_invariant st Hr) as [Hl Hm]. split.
  - intros Hn. apply predict_unloaded.
    destruct (isLoaded st) eqn:E; [|done]. exfalso. apply Hn, Hl. done.
  - intros Hc. apply Hl in Hc. apply predict_loaded; auto.
Qed.

End ModelManagerFacts.

(** ** The bootstrap *)

Section AppFacts.

Import App.

Lemma init_throws o m :
  (∀ w, o ≠ ModelManager.Loads w) →
  fst (ModelManager.init o m) = Err ModelManager.InitFailed.
Proof. intros H. destruct o; try reflexivity. by destruct (H weights_found). Qed.

Lemma init_loads w m : fst (ModelManager.init (ModelManager.Loads w) m) = Ok true.
Proof. reflexivity. Qed.

(** [initializeApp] only adds events. *)
Lemma initializeApp_state h st :
  modelLoaded (initializeApp h st) = modelLoaded st
  ∧ currentAttempt (initializeApp h st) = currentAttempt st
  ∧ calls (initializeApp h st) = calls st.
Proof.
  unfold initializeApp.
  destruct (throws h CanvasManager), (throws h UIManager),
    (throws h StatsManager); repeat split.
Qed.

(** [loadModel] returns: the recursion is never cut short by the fuel
    that [loadModel] gives it. *)
Lemma loadModel_rec_total fuel : ∀ h st,
  (Z.to_nat (MAX_ATTEMPTS - currentAttempt st) < fuel)%nat →
  ∃ st', loadModel_rec fuel h st = Some st'.
Proof.
  induction fuel as [|fuel IH]; intros h st Hfuel; [lia|].
  cbn [loadModel_rec].
  destruct (ModelManager.init _ _) as [[b|e] m]; cbn; [eauto|].
  destruct (Z.ltb_spec (currentAttempt st) MAX_ATTEMPTS) as [Hlt|Hge]; [|eauto].
  apply IH. cbn. unfold MAX_ATTEMPTS in *. lia.
Qed.

Lemma loadModel_total h st : ∃ st', loadModel h st = Some st'.
Proof. apply loadModel_rec_total. lia. Qed.

Lemma attempts_app t1 t2 : attempts (t1 ++ t2) = (attempts t1 + attempts t2)%nat.
Proof. unfold attempts. by rewrite filter_app, length_app. Qed.

Lemma delays_app t1 t2 : delays (t1 ++ t2) = delays t1 ++ delays t2.
Proof.
  induction t1 as [|e t1 IH]; [done|]. destruct e; cbn; by rewrite ?IH.
Qed.

(** One failed attempt of [loadModel]: either a retry after the backoff
    delay, or the error screen. *)
Lemma loadModel_rec_failure fuel h st :
  (∀ w, model_init h (calls st) ≠ ModelManager.Loads w) →
  loadModel_rec (S fuel) h st =
    let m := snd (ModelManager.init (model_init h (calls st)) (manager st)) in
    if currentAttempt st <? MAX_ATTEMPTS then
      loadModel_rec fuel h
        (mkState (modelLoaded st) (currentAttempt st + 1) m (S (calls st))
           (trace st ++ [ UpdateLoadingStatus LoadingAIModel; ModelManagerInit;
                          UpdateLoadingStatus
                            (Retrying (currentAttempt st + 1) MAX_ATTEMPTS);
                          Sleep (delay (currentAttempt st + 1)) ]))
    else
      Some (mkState (modelLoaded st) (currentAttempt st) m (S (calls st))
              (trace st ++ [ UpdateLoadingStatus LoadingAIModel; ModelManagerInit;
                             ShowError ])).
Proof.
  intros H. cbn [loadModel_rec].
  pose proof (init_throws _ (manager st) H) as Hr. cbn.
  destruct (ModelManager.init _ _) as [r m]. cbn in Hr. subst r. cbn.
  unfold showError, emit. cbn.
  destruct (currentAttempt st <? MAX_ATTEMPTS); rewrite <- !app_assoc; reflexivity.
Qed.

(** C1. When every call of [ModelManager.init] fails, the bootstrap makes
    exactly three load attempts, sleeps exactly 1000 ms before the second
    and 2000 ms before the third (the delay before attempt [k] is
    [2^(k-2)] seconds), and after the third failure shows the error screen
    with no further attempt and no further delay. *)
Theorem bootstrap_three_failures :
  ∀ h : host,
    (∀ n w, model_init h n ≠ ModelManager.Loads w) →
    ∃ st,
      init h = Some st
      ∧ trace st =
          [ UpdateLoadingStatus LoadingAIModel; ModelManagerInit;
            UpdateLoadingStatus (Retrying 2 3); Sleep 1000;
            UpdateLoadingStatus LoadingAIModel; ModelManagerInit;
            UpdateLoadingStatus (Retrying 3 3); Sleep 2000;
            UpdateLoadingStatus LoadingAIModel; ModelManagerInit;
            ShowError ]
      ∧ attempts (trace st) = 3%nat
      ∧ delays (trace st) = [delay 2; delay 3]
      ∧ delay 2 = 1000 ∧ delay 3 = 2000
      ∧ final st = Failed
      ∧ currentAttempt st = 3
      ∧ modelLoaded st = false.
Proof.
  intros h Hfail. unfold init, loadModel.
  change (S (Z.to_nat (MAX_ATTEMPTS - currentAttempt initial))) with 3%nat.
  rewrite loadModel_rec_failure by apply Hfail. cbn -[loadModel_rec].
  rewrite loadModel_rec_failure by apply Hfail. cbn -[loadModel_rec].
  rewrite loadModel_rec_failure by apply Hfail. cbn -[loadModel_rec].
  eexists. split; [reflexivity|]. cbn. repeat split; reflexivity.
Qed.

(** C8. Whatever the value of [currentAttempt]: when the call of
    [ModelManager.init] succeeds and one of the collaborators then throws
    from its [init], [loadModel] ends on the error screen; the events it
    adds contain the one successful load attempt, no sleep and no retry
    status, and [currentAttempt] is left as it was. *)
Theorem secondary_failure_is_final :
  ∀ (h : host) (st : state) (w : bool),
    model_init h (calls st) = ModelManager.Loads w →
    (∃ c, throws h c = true) →
    ∃ st' added,
      loadModel h st = Some st'
      ∧ trace st' = trace st ++ added
      ∧ attempts added = 1%nat
      ∧ delays added = []
      ∧ (∀ a m, UpdateLoadingStatus (Retrying a m) ∉ added)
      ∧ last added = Some ShowError
      ∧ final st' = Failed
      ∧ currentAttempt st' = currentAttempt st
      ∧ calls st' = S (calls st)
      ∧ modelLoaded st' = true.
Proof.
  intros [mi th] [ml ca mg n t] w Hl [c Hc]. cbn in Hl, Hc.
  unfold loadModel. cbn [loadModel_rec]. cbn. rewrite Hl. cbn.
  unfold initializeApp, showError, emit, final. cbn.
  destruct (th CanvasManager) eqn:E1; [|destruct (th UIManager) eqn:E2;
    [|destruct (th StatsManager) eqn:E3;
      [|destruct c; congruence]]];
  (eexists; eexists; split; [reflexivity|]; cbn;
   split; [rewrite <- !app_assoc; cbn; reflexivity|];
   rewrite ?last_snoc;
   repeat split; try reflexivity;
   intros a m Hin; repeat (apply elem_of_cons in Hin as [Hin|Hin]; [discriminate|]);
   by apply elem_of_nil in Hin).
Qed.

End AppFacts.

(** ** The service worker *)

Section ServiceWorkerFacts.

Import ServiceWorker.
Local Open Scope string_scope.

(** How the worker resolves the strings of its lists into URLs. *)
Variable resolve : string → string.

(** *** The cache storage *)

Lemma match_holds u (caches : CacheStorage) r :
  match_ u caches = Some r → ∃ name, holds caches name u r.
Proof.
  induction caches as [|[n c] caches IH]; cbn; [discriminate|].
  destruct (c !! u) as [r'|] eqn:E.
  - intros [= <-]. exists n, c. split; [left|done].
  - intros H. destruct (IH H) as (name & c' & Hin & Hc).
    exists name, c'. split; [by right|done].
Qed.

Lemma holds_match u (caches : CacheStorage) name r :
  holds caches name u r → is_Some (match_ u caches).
Proof.
  intros (c & Hin & Hc).
  induction caches as [|[n c'] caches IH]; [by apply elem_of_nil in Hin|].
  cbn. destruct (c' !! u) as [r'|] eqn:E; [eauto|].
  apply elem_of_cons in Hin as [[= <- <-]|Hin]; [congruence|auto].
Qed.

Lemma match_none u (caches : CacheStorage) :
  (∀ name r, ¬ holds caches name u r) → match_ u caches = None.
Proof.
  intros H. destruct (match_ u caches) as [r|] eqn:E; [|done].
  destruct (match_holds _ _ _ E) as [name Hn]. by destruct (H name r).
Qed.

Lemma holds_open name' (caches : CacheStorage) name u r :
  holds (open name' caches) name u r → holds caches name u r.
Proof.
  unfold open. case_bool_decide; [done|].
  intros (c & Hin & Hc). apply elem_of_app in Hin as [Hin|Hin].
  - by exists c.
  - apply list_elem_of_singleton in Hin as [= -> ->].
    by rewrite lookup_empty in Hc.
Qed.

Lemma holds_put name' u' r' (caches : CacheStorage) name u r :
  holds (put name' u' r' caches) name u r → holds caches name u r ∨ r = r'.
Proof.
  unfold put. intros (c & Hin & Hc).
  apply list_elem_of_fmap in Hin as ([n c0] & Heq & Hin). cbn in Heq.
  case_bool_decide; simplify_eq.
  - destruct (decide (u' = u)) as [->|Hne].
    + rewrite lookup_insert_eq in Hc. right. congruence.
    + rewrite lookup_insert_ne in Hc by done. left. by exists c0.
  - left. by exists c0.
Qed.

Lemma only_adds_ok_refl (caches : CacheStorage) : only_adds_ok caches caches.
Proof. intros name u r H. by left. Qed.

Lemma only_adds_ok_trans (c1 c2 c3 : CacheStorage) :
  only_adds_ok c1 c2 → only_adds_ok c2 c3 → only_adds_ok c1 c3.
Proof.
  intros H12 H23 name u r H. destruct (H23 _ _ _ H) as [H2|Hok]; [|by right].
  by apply H12.
Qed.

Lemma only_adds_ok_open name (caches : CacheStorage) :
  only_adds_ok caches (open name caches).
Proof. intros n u r H. left. by apply holds_open in H. Qed.

Lemma only_adds_ok_put name u r (caches : CacheStorage) :
  ok r = true → only_adds_ok caches (put name u r caches).
Proof.
  intros Hok n u' r' H. apply holds_put in H as [H| ->]; [by left|by right].
Qed.

Lemma fetchAll_ok net urls l :
  fetchAll net urls = Some l → Forall (λ e, ok e.2 = true) l.
Proof.
  revert l. induction urls as [|u urls IH]; cbn; intros l.
  - intros [= <-]. constructor.
  - destruct (net u) as [r|]; [|discriminate].
    destruct (addable r) eqn:Hok; [|discriminate].
    destruct (fetchAll net urls) as [l'|]; [|discriminate].
    intros [= <-]. constructor; [|by apply IH].
    cbn. unfold addable in Hok. by apply andb_true_iff in Hok as [-> _].
Qed.

Lemma only_adds_ok_putAll name l (caches : CacheStorage) :
  Forall (λ e, ok e.2 = true) l → only_adds_ok caches (putAll name l caches).
Proof.
  unfold putAll. revert caches. induction l as [|[u r] l IH]; intros caches Hl; cbn.
  - apply only_adds_ok_refl.
  - apply Forall_cons in Hl as [Hr Hl]. cbn in Hr.
    eapply only_adds_ok_trans; [|by apply IH]. by apply only_adds_ok_put.
Qed.

Lemma only_adds_ok_addAll net name urls (caches caches' : CacheStorage) :
  addAll resolve net name urls caches = Some caches' → only_adds_ok caches caches'.
Proof.
  unfold addAll. destruct (fetchAll net _) as [l|] eqn:E; [|discriminate].
  intros [= <-]. apply only_adds_ok_putAll. by eapply fetchAll_ok.
Qed.

Lemma only_adds_ok_add_or_log net name (caches : CacheStorage) u :
  only_adds_ok caches (add_or_log resolve net name caches u).
Proof.
  unfold add_or_log, add. destruct (addAll _ _ _ _) eqn:E.
  - by eapply only_adds_ok_addAll.
  - apply only_adds_ok_refl.
Qed.

Lemma only_adds_ok_cache_successful request r (caches : CacheStorage) :
  only_adds_ok caches (cache_successful request r caches).
Proof.
  unfold cache_successful. destruct (Z.eqb_spec (status r) 200) as [Hs|Hs].
  - eapply only_adds_ok_trans; [apply only_adds_ok_open|].
    apply only_adds_ok_put. unfold ok. rewrite Hs. reflexivity.
  - apply only_adds_ok_refl.
Qed.

Lemma fetchAll_cacheable net urls :
  (∀ u, u ∈ urls → cacheable net u) → is_Some (fetchAll net urls).
Proof.
  induction urls as [|u urls IH]; cbn; intros H; [eauto|].
  destruct (H u) as (r & -> & ->); [by left|].
  destruct IH as [l ->]; [|eauto]. intros u' Hu'. apply H. by right.
Qed.

Lemma fetchAll_uncacheable net urls u :
  u ∈ urls → uncacheable net u → fetchAll net urls = None.
Proof.
  intros Hin Hu. induction urls as [|u' urls IH]; [by apply elem_of_nil in Hin|].
  cbn. apply elem_of_cons in Hin as [<-|Hin].
  - destruct Hu as [->|(r & -> & ->)]; reflexivity.
  - rewrite (IH Hin). destruct (net u') as [r|]; [|done]. by destruct (addable r).
Qed.

(** *** fetch *)

(** C2. A request whose origin is not the application's, and for which the
    cache storage holds an entry when it is intercepted, is answered with
    a cached entry for that request, and no request goes to the
    network. *)
Theorem cross_origin_cache_first :
  ∀ location_origin net request (caches : CacheStorage) name r,
    origin request ≠ location_origin →
    holds caches name (url request) r →
    ∃ cached name',
      response (onfetch location_origin net request caches) = Ok cached
      ∧ holds caches name' (url request) cached
      ∧ match_ (url request) caches = Some cached
      ∧ fetched (onfetch location_origin net request caches) = []
      ∧ caches_after (onfetch location_origin net request caches) = caches.
Proof.
  intros lo net request caches name r Ho Hh.
  destruct (holds_match _ _ _ _ Hh) as [cached Hm].
  destruct (match_holds _ _ _ Hm) as [name' Hh'].
  exists cached, name'. unfold onfetch.
  rewrite bool_decide_true by done. rewrite Hm. by cbn.
Qed.

(** C3. A request of the application's own origin whose network fetch
    succeeds is answered with the response of the network, whatever the
    cache storage holds for it. *)
Theorem same_origin_network_first :
  ∀ location_origin net request (caches : CacheStorage) r,
    origin request = location_origin →
    net (url request) = Some r →
    response (onfetch location_origin net request caches) = Ok r
    ∧ fetched (onfetch location_origin net request caches) = [url request].
Proof.
  intros lo net request caches r Ho Hn. unfold onfetch.
  rewrite bool_decide_false by (intros H; by apply H). rewrite Hn. by cbn.
Qed.

(** C4. A request of the application's own origin whose network fetch
    fails and for which the cache storage holds no entry is answered with
    the error 'No cached version available', not with a response. *)
Theorem same_origin_no_cached_version :
  ∀ location_origin net request (caches : CacheStorage),
    origin request = location_origin →
    net (url request) = None →
    (∀ name r, ¬ holds caches name (url request) r) →
    response (onfetch location_origin net request caches)
      = Err (Error "No cached version available")
    ∧ ∀ r, response (onfetch location_origin net request caches) ≠ Ok r.
Proof.
  intros lo net request caches Ho Hn Hc. unfold onfetch.
  rewrite bool_decide_false by (intros H; by apply H).
  rewrite Hn, (match_none _ _ Hc). cbn. split; [done|discriminate].
Qed.

(** *** install *)

Lemma only_adds_ok_foldl_add net name urls : ∀ caches : CacheStorage,
  only_adds_ok caches (foldl (add_or_log resolve net name) caches urls).
Proof.
  induction urls as [|u urls IH]; intros caches; cbn.
  - apply only_adds_ok_refl.
  - eapply only_adds_ok_trans; [apply only_adds_ok_add_or_log|apply IH].
Qed.

(** C5. Whatever the fetch handler (in either branch) and the install
    handler leave in the cache storage was there before or is a response
    with a successful status: a response without one is never stored. *)
Theorem only_successful_responses_stored :
  (∀ location_origin net request (caches : CacheStorage),
     only_adds_ok caches
       (caches_after (onfetch location_origin net request caches)))
  ∧ (∀ net (caches : CacheStorage),
       only_adds_ok caches (store (oninstall resolve net caches))).
Proof.
  split.
  - intros lo net request caches. unfold onfetch.
    case_bool_decide.
    + destruct (match_ _ _); cbn; [apply only_adds_ok_refl|].
      destruct (net _); cbn;
        [apply only_adds_ok_cache_successful|apply only_adds_ok_refl].
    + destruct (net _); cbn; [apply only_adds_ok_cache_successful|].
      destruct (match_ _ _); cbn; apply only_adds_ok_refl.
  - intros net caches. unfold oninstall.
    destruct (addAll _ _ _ _) as [caches'|] eqn:E; cbn [store].
    + eapply only_adds_ok_trans; [apply only_adds_ok_open|].
      eapply only_adds_ok_trans; [by eapply only_adds_ok_addAll|].
      eapply only_adds_ok_trans; [apply only_adds_ok_open|].
      apply only_adds_ok_foldl_add.
    + apply only_adds_ok_open.
Qed.

Lemma resolved_elem u (urls : list string) :
  u ∈ urls → resolve u ∈ resolve <$> urls.
Proof. intros H. apply list_elem_of_fmap. by exists u. Qed.

Lemma resolved_cacheable net (urls : list string) :
  (∀ u, u ∈ urls → cacheable net (resolve u)) →
  ∀ u, u ∈ resolve <$> urls → cacheable net u.
Proof.
  intros H u Hu. apply list_elem_of_fmap in Hu as (u0 & -> & Hu0). by apply H.
Qed.

(** C7. If any one entry of [STATIC_CACHE_FILES] cannot be fetched and
    stored, the promise given to [waitUntil] rejects and [skipWaiting] is
    not reached; if all of them can, the promise resolves whatever happens
    to the entries of [CDN_CACHE_FILES]. *)
Theorem install_static_fatal_cdn_swallowed :
  ∀ net (caches : CacheStorage),
    (∀ u, u ∈ STATIC_CACHE_FILES → uncacheable net (resolve u) →
       resolved (oninstall resolve net caches) = false
       ∧ skipWaiting (oninstall resolve net caches) = false)
    ∧ ((∀ u, u ∈ STATIC_CACHE_FILES → cacheable net (resolve u)) →
       resolved (oninstall resolve net caches) = true
       ∧ skipWaiting (oninstall resolve net caches) = true).
Proof.
  intros net caches. unfold oninstall, addAll. split.
  - intros u Hin Hu.
    by rewrite (fetchAll_uncacheable _ _ _ (resolved_elem _ _ Hin) Hu).
  - intros H. by destruct (fetchAll_cacheable _ _ (resolved_cacheable _ _ H)) as [l ->].
Qed.

(** *** activate *)

Lemma filter_ext_in {A} (P Q : A → Prop) `{∀ x, Decision (P x)}
    `{∀ x, Decision (Q x)} (l : list A) :
  (∀ x, x ∈ l → P x ↔ Q x) → filter P l = filter Q l.
Proof.
  induction l as [|x l IH]; intros H1; [done|].
  rewrite !filter_cons. rewrite IH by (intros y Hy; apply H1; by right).
  pose proof (H1 x ltac:(by left)) as Hx.
  repeat case_decide; tauto.
Qed.

Lemma filter_all {A} (P : A → Prop) `{∀ x, Decision (P x)} (l : list A) :
  (∀ x, x ∈ l → P x) → filter P l = l.
Proof.
  induction l as [|x l IH]; intros H1; [done|].
  rewrite filter_cons_True by (apply H1; by left).
  f_equal. apply IH. intros y Hy. apply H1. by right.
Qed.

Lemma onactivate_foldl names : ∀ caches : CacheStorage,
  foldl (λ cs cache,
           if bool_decide (cache ≠ CACHE_NAME) then delete cache cs else cs)
    caches names
  = filter (λ c, c.1 = CACHE_NAME ∨ c.1 ∉ names) caches.
Proof.
  induction names as [|k names IH]; intros caches; cbn.
  - symmetry. apply filter_all. intros c _. right. apply not_elem_of_nil.
  - rewrite IH. case_bool_decide as Hk.
    + unfold delete. rewrite list_filter_filter. apply filter_ext_in.
      intros c _. rewrite not_elem_of_cons. split.
      * intros [[->|Hc] Hne]; [by left|by right].
      * intros [->|[Hne Hc]]; (split; [|done]); [by left|by right].
    + subst k. apply filter_ext_in.
      intros c _. rewrite not_elem_of_cons.
      destruct (decide (c.1 = CACHE_NAME)); tauto.
Qed.

Lemma onactivate_filter (caches : CacheStorage) :
  onactivate caches = filter (λ c, c.1 = CACHE_NAME) caches.
Proof.
  unfold onactivate. rewrite onactivate_foldl. apply filter_ext_in.
  intros c Hc. split; [|by left]. intros [H|H]; [done|].
  destruct H. unfold keys. apply list_elem_of_fmap. by exists c.
Qed.

Lemma filter_current_absent (caches : CacheStorage) :
  CACHE_NAME ∉ keys caches → filter (λ c, c.1 = CACHE_NAME) caches = [].
Proof.
  intros H. induction caches as [|[n c] caches IH]; [done|].
  cbn in H. apply not_elem_of_cons in H as [Hn H].
  rewrite filter_cons. cbn. rewrite decide_False by done. by apply IH.
Qed.

Lemma onactivate_current (caches : CacheStorage) :
  NoDup (keys caches) →
  CACHE_NAME ∈ keys caches →
  ∃ c, (CACHE_NAME, c) ∈ caches ∧ onactivate caches = [(CACHE_NAME, c)].
Proof.
  intros Hnd Hin. rewrite onactivate_filter.
  induction caches as [|[n c] caches IH]; [by apply elem_of_nil in Hin|].
  cbn in Hnd, Hin. apply NoDup_cons in Hnd as [Hn Hnd].
  rewrite filter_cons. cbn. destruct (decide (n = CACHE_NAME)) as [->|Hne].
  - exists c. split; [by left|]. by rewrite filter_current_absent.
  - apply elem_of_cons in Hin as [Heq|Hin]; [congruence|].
    destruct (IH Hnd Hin) as (c' & Hc' & Hf). exists c'. split; [by right|done].
Qed.

(** C6. For a cache storage that holds the current generation next to any
    number of stale ones, activation leaves exactly one generation, the
    current one, with its entries as they were. *)
Theorem activate_leaves_current_only :
  ∀ caches : CacheStorage,
    NoDup (keys caches) →
    CACHE_NAME ∈ keys caches →
    keys (onactivate caches) = [CACHE_NAME]
    ∧ ∃ c, (CACHE_NAME, c) ∈ caches ∧ onactivate caches = [(CACHE_NAME, c)].
Proof.
  intros caches Hnd Hin.
  destruct (onactivate_current caches Hnd Hin) as (c & Hc & Heq).
  split; [by rewrite Heq|]. by exists c.
Qed.

(** *** install, then activate *)

Lemma keys_open name (caches : CacheStorage) :
  name ∈ keys (open name caches)
  ∧ (NoDup (keys caches) → NoDup (keys (open name caches))).
Proof.
  unfold open, keys. case_bool_decide as Hin; [done|].
  rewrite fmap_app. cbn. split.
  - apply elem_of_app. right. by left.
  - intros Hnd. apply NoDup_app. split; [done|]. split.
    + intros x Hx Hx'. apply list_elem_of_singleton in Hx'. by subst x.
    + apply NoDup_singleton.
Qed.

Lemma keys_put name u r (caches : CacheStorage) :
  keys (put name u r caches) = keys caches.
Proof.
  unfold keys, put. rewrite <- list_fmap_compose. apply list_fmap_ext.
  intros i [n c] _. cbn. by case_bool_decide.
Qed.

Lemma keys_putAll name l : ∀ caches : CacheStorage,
  keys (putAll name l caches) = keys caches.
Proof.
  unfold putAll. induction l as [|[u r] l IH]; intros caches; cbn; [done|].
  by rewrite IH, keys_put.
Qed.

Lemma keys_add_or_log net name (caches : CacheStorage) u :
  keys (add_or_log resolve net name caches u) = keys caches.
Proof.
  unfold add_or_log, add, addAll. destruct (fetchAll net _); [|done].
  apply keys_putAll.
Qed.

Lemma keys_foldl_add net name urls : ∀ caches : CacheStorage,
  keys (foldl (add_or_log resolve net name) caches urls) = keys caches.
Proof.
  induction urls as [|u urls IH]; intros caches; cbn; [done|].
  by rewrite IH, keys_add_or_log.
Qed.

Lemma open_again name (caches : CacheStorage) :
  name ∈ keys caches → open name caches = caches.
Proof. intros H. unfold open. by rewrite bool_decide_true. Qed.

(** The caches left by the install handler are those that were there, and
    the current generation. *)
Lemma keys_oninstall net (caches : CacheStorage) :
  keys (store (oninstall resolve net caches)) = keys (open CACHE_NAME caches).
Proof.
  unfold oninstall, addAll.
  destruct (fetchAll net _) as [l|]; cbn [store]; [|done].
  rewrite keys_foldl_add. rewrite open_again.
  - apply keys_putAll.
  - rewrite keys_putAll. apply keys_open.
Qed.

(** Activation after an installation, from any cache storage: exactly the
    current generation is left. *)
Lemma install_then_activate net (caches : CacheStorage) :
  NoDup (keys caches) →
  keys (onactivate (store (oninstall resolve net caches))) = [CACHE_NAME].
Proof.
  intros Hnd.
  destruct (onactivate_current (store (oninstall resolve net caches))) as (c & _ & ->);
    [| |done]; rewrite keys_oninstall; by apply keys_open.
Qed.

End ServiceWorkerFacts.

(** ** The statements at concrete inputs *)

Section Witnesses.

Import Sample.
Local Open Scope string_scope.

Lemma bootstrap_three_failures_witness :
  (∀ n w, App.model_init model_down n ≠ ModelManager.Loads w)
  ∧ ∃ st, App.init model_down = Some st
          ∧ App.attempts (App.trace st) = 3%nat
          ∧ App.delays (App.trace st) = [1000; 2000]
          ∧ App.final st = App.Failed.
Proof.
  assert (H : ∀ n w, App.model_init model_down n ≠ ModelManager.Loads w)
    by (intros n w; discriminate).
  split; [exact H|].
  destruct (bootstrap_three_failures model_down H)
    as (st & Hi & _ & Ha & Hd & H2 & H3 & Hf & _).
  exists st. rewrite Hd, H2, H3. done.
Defined.

Lemma secondary_failure_is_final_witness :
  App.model_init ui_broken (App.calls after_first_failure) = ModelManager.Loads false
  ∧ App.throws ui_broken App.UIManager = true
  ∧ ∃ st' added,
      App.loadModel ui_broken after_first_failure = Some st'
      ∧ App.trace st' = (App.trace after_first_failure ++ added)%list
      ∧ App.attempts added = 1%nat
      ∧ App.delays added = []
      ∧ App.final st' = App.Failed
      ∧ App.currentAttempt st' = 2.
Proof.
  split; [reflexivity|]. split; [reflexivity|].
  destruct (secondary_failure_is_final ui_broken after_first_failure false)
    as (st' & added & Hl & Ht & Ha & Hd & _ & _ & Hf & Hc & _).
  - reflexivity.
  - exists App.UIManager. reflexivity.
  - exists st', added. done.
Defined.

Lemma predict_requires_init_witness :
  (ModelManager.reachable ModelManager.initial
   ∧ ¬ ModelManager.init_completed ModelManager.initial
   ∧ ModelManager.predict try_block [0; 255] ModelManager.initial
     = (Err (ModelManager.Error "Model not loaded"), 0%nat))
  ∧ (ModelManager.reachable loaded
     ∧ ModelManager.init_completed loaded
     ∧ fst (ModelManager.predict try_block [0; 255] loaded)
       ≠ Err (ModelManager.Error "Model not loaded")).
Proof.
  assert (R0 : ModelManager.reachable ModelManager.initial) by apply rtc_refl.
  assert (N0 : ¬ ModelManager.init_completed ModelManager.initial)
    by apply not_elem_of_nil.
  assert (R1 : ModelManager.reachable loaded).
  { eapply rtc_r; [eapply rtc_r; [apply rtc_refl|]|].
    - apply (ModelManager.step_start (ModelManager.Loads true)).
    - apply ModelManager.step_finish. cbn. lia. }
  assert (C1 : ModelManager.init_completed loaded).
  { unfold ModelManager.init_completed. cbn. repeat constructor. }
  split.
  - split; [exact R0|]. split; [exact N0|].
    exact (proj1 (predict_requires_init try_block _ [0; 255] R0) N0).
  - split; [exact R1|]. split; [exact C1|].
    exact (proj2 (predict_requires_init try_block _ [0; 255] R1) C1).
Defined.

Lemma cross_origin_cache_first_witness :
  cdn_origin ≠ app_origin
  ∧ ServiceWorker.holds warm ServiceWorker.CACHE_NAME tf_url cached_tf
  ∧ ServiceWorker.response
      (ServiceWorker.onfetch app_origin online
         (ServiceWorker.mkRequest tf_url cdn_origin) warm) = Ok cached_tf
  ∧ ServiceWorker.fetched
      (ServiceWorker.onfetch app_origin online
         (ServiceWorker.mkRequest tf_url cdn_origin) warm) = [].
Proof.
  assert (Ho : cdn_origin ≠ app_origin) by discriminate.
  assert (Hh : ServiceWorker.holds warm ServiceWorker.CACHE_NAME tf_url cached_tf).
  { eexists. split; [left|]. apply lookup_insert_eq. }
  split; [exact Ho|]. split; [exact Hh|].
  destruct (cross_origin_cache_first app_origin online
              (ServiceWorker.mkRequest tf_url cdn_origin) warm _ _ Ho Hh)
    as (cached & name' & Hr & _ & Hm & Hf & _).
  split; [|exact Hf]. rewrite Hr. f_equal.
  cbn in Hm. rewrite lookup_insert_eq in Hm. congruence.
Defined.

Lemma same_origin_network_first_witness :
  ServiceWorker.match_ app_js warm = Some stale_app
  ∧ online app_js = Some fresh_app
  ∧ ServiceWorker.response
      (ServiceWorker.onfetch app_origin online
         (ServiceWorker.mkRequest app_js app_origin) warm) = Ok fresh_app.
Proof.
  split; [vm_compute; reflexivity|].
  split; [reflexivity|].
  apply (same_origin_network_first app_origin online
           (ServiceWorker.mkRequest app_js app_origin) warm fresh_app);
    reflexivity.
Defined.

Lemma same_origin_no_cached_version_witness :
  offline new_js = None
  ∧ (∀ name r, ¬ ServiceWorker.holds warm name new_js r)
  ∧ ServiceWorker.response
      (ServiceWorker.onfetch app_origin offline
         (ServiceWorker.mkRequest new_js app_origin) warm)
    = Err (ServiceWorker.Error "No cached version available").
Proof.
  assert (Hc : ∀ name r, ¬ ServiceWorker.holds warm name new_js r).
  { intros name r (c & Hin & Hl).
    apply list_elem_of_singleton in Hin as [= -> ->].
    rewrite lookup_insert_ne in Hl by discriminate.
    rewrite lookup_singleton_ne in Hl by discriminate. discriminate. }
  split; [reflexivity|]. split; [exact Hc|].
  apply (same_origin_no_cached_version app_origin offline
           (ServiceWorker.mkRequest new_js app_origin) warm);
    [reflexivity|reflexivity|exact Hc].
Defined.

Lemma activate_leaves_current_only_witness :
  NoDup (ServiceWorker.keys three_generations)
  ∧ ServiceWorker.CACHE_NAME ∈ ServiceWorker.keys three_generations
  ∧ ServiceWorker.keys (ServiceWorker.onactivate three_generations)
    = [ServiceWorker.CACHE_NAME].
Proof.
  assert (Hnd : NoDup (ServiceWorker.keys three_generations)).
  { cbn. repeat (apply NoDup_cons; split);
      rewrite ?elem_of_cons, ?elem_of_nil; try apply NoDup_nil_2;
      intuition discriminate. }
  assert (Hin : ServiceWorker.CACHE_NAME ∈ ServiceWorker.keys three_generations).
  { cbn. right. left. }
  split; [exact Hnd|]. split; [exact Hin|].
  exact (proj1 (activate_leaves_current_only three_generations Hnd Hin)).
Defined.

Lemma install_static_fatal_cdn_swallowed_witness :
  ("./js/model.js" ∈ ServiceWorker.STATIC_CACHE_FILES
   ∧ ServiceWorker.uncacheable missing_model_js (resolve "./js/model.js")
   ∧ ServiceWorker.resolved
       (ServiceWorker.oninstall resolve missing_model_js []) = false)
  ∧ ((∀ u, u ∈ ServiceWorker.STATIC_CACHE_FILES →
           ServiceWorker.cacheable shell_only (resolve u))
     ∧ (∀ u, u ∈ ServiceWorker.CDN_CACHE_FILES →
             ServiceWorker.uncacheable shell_only (resolve u))
     ∧ ServiceWorker.resolved
         (ServiceWorker.oninstall resolve shell_only []) = true).
Proof.
  assert (Hin : "./js/model.js" ∈ ServiceWorker.STATIC_CACHE_FILES)
    by (unfold ServiceWorker.STATIC_CACHE_FILES; do 5 right; left).
  assert (Hu : ServiceWorker.uncacheable missing_model_js (resolve "./js/model.js"))
    by (right; eexists; split; reflexivity).
  assert (Hs : ∀ u, u ∈ ServiceWorker.STATIC_CACHE_FILES →
                    ServiceWorker.cacheable shell_only (resolve u)).
  { intros u H. unfold ServiceWorker.cacheable, shell_only.
    rewrite bool_decide_true by (apply list_elem_of_fmap; by exists u).
    eexists. split; reflexivity. }
  assert (Hcdn : ∀ u, u ∈ ServiceWorker.CDN_CACHE_FILES →
                      ServiceWorker.uncacheable shell_only (resolve u)).
  { intros u H. left. unfold ServiceWorker.CDN_CACHE_FILES in H.
    repeat (apply elem_of_cons in H as [->|H]; [reflexivity|]).
    by apply elem_of_nil in H. }
  split.
  - split; [exact Hin|]. split; [exact Hu|].
    exact (proj1 (proj1 (install_static_fatal_cdn_swallowed resolve
                           missing_model_js []) _ Hin Hu)).
  - split; [exact Hs|]. split; [exact Hcdn|].
    exact (proj1 (proj2 (install_static_fatal_cdn_swallowed resolve
                           shell_only []) Hs)).
Defined.



End Witnesses.

(* ===================================================================== *)
(** * Further properties *)
(* ===================================================================== *)

(** ** The service worker: how requests, installation and activation
       compose *)

Section ServiceWorkerComposition.

Import ServiceWorker.
Local Open Scope string_scope.

(** How the worker resolves the strings of its lists into URLs. *)
Variable resolve : string → string.

Lemma keys_elem (caches : CacheStorage) name c :
  (name, c) ∈ caches → name ∈ keys caches.
Proof. intros H. unfold keys. apply list_elem_of_fmap. by exists (name, c). Qed.

Lemma match_app u (l1 l2 : CacheStorage) :
  match_ u (l1 ++ l2) =
    match match_ u l1 with Some r => Some r | None => match_ u l2 end.
Proof.
  induction l1 as [|[n c] l1 IH]; cbn; [by destruct (match_ u l2)|].
  by destruct (c !! u).
Qed.

Lemma match_open u name (caches : CacheStorage) :
  match_ u (open name caches) = match_ u caches.
Proof.
  unfold open. case_bool_decide; [done|]. rewrite match_app. cbn.
  rewrite lookup_empty. by destruct (match_ u caches).
Qed.

(** After [put], the first match is the new response as soon as no cache
    of another name holds the URL. *)
Lemma match_put_own name u r (caches : CacheStorage) :
  (∀ n c, (n, c) ∈ caches → n ≠ name → c !! u = None) →
  name ∈ keys caches →
  match_ u (put name u r caches) = Some r.
Proof.
  induction caches as [|[n c] caches IH]; intros Hother Hin;
    [by apply elem_of_nil in Hin|].
  cbn. case_bool_decide as Hn; cbn in *.
  - by rewrite lookup_insert_eq.
  - rewrite (Hother n c) by (done || by left).
    apply elem_of_cons in Hin as [Heq|Hin]; [congruence|].
    apply IH; [|done]. intros n' c' Hin'. apply Hother. by right.
Qed.

Lemma holds_open_mono name' (caches : CacheStorage) name u r :
  holds caches name u r → holds (open name' caches) name u r.
Proof.
  intros (c & Hin & Hc). exists c. split; [|done].
  unfold open. case_bool_decide; [done|]. apply elem_of_app. by left.
Qed.

Lemma holds_put_same name u r (caches : CacheStorage) :
  name ∈ keys caches → holds (put name u r caches) name u r.
Proof.
  intros Hin. apply list_elem_of_fmap in Hin as ([n c] & -> & Hin). cbn.
  exists (<[u := r]> c). split; [|by rewrite lookup_insert_eq].
  unfold put. apply list_elem_of_fmap. exists (n, c). split; [|done].
  cbn. by rewrite bool_decide_true.
Qed.

Lemma holds_put_other name' u' r' (caches : CacheStorage) name u r :
  holds caches name u r →
  name ≠ name' ∨ u ≠ u' →
  holds (put name' u' r' caches) name u r.
Proof.
  intros (c & Hin & Hc) Hne. unfold put.
  destruct (decide (name = name')) as [->|Hn].
  - destruct Hne as [Hne|Hne]; [done|].
    exists (<[u' := r']> c). split; [|by rewrite lookup_insert_ne].
    apply list_elem_of_fmap. exists (name', c). split; [|done].
    cbn. by rewrite bool_decide_true.
  - exists c. split; [|done]. apply list_elem_of_fmap. exists (name, c).
    split; [|done]. cbn. by rewrite bool_decide_false.
Qed.

(** A later [put] of the same response keeps the entry too. *)
Lemma holds_put_keeps name' u' r' (caches : CacheStorage) name u r :
  holds caches name u r →
  (name = name' → u = u' → r' = r) →
  holds (put name' u' r' caches) name u r.
Proof.
  intros Hh Hsame.
  destruct (decide (name = name')) as [->|Hn];
    [destruct (decide (u = u')) as [->|Hu]|].
  - rewrite (Hsame eq_refl eq_refl). apply holds_put_same.
    destruct Hh as (c & Hin & _). by eapply keys_elem.
  - apply holds_put_other; auto.
  - apply holds_put_other; auto.
Qed.

Lemma open_has name (caches : CacheStorage) : name ∈ keys (open name caches).
Proof. apply keys_open. Qed.

(** X1. Warming the cache.  A cross-origin request that no cache can
    answer and that the network answers with status 200 is answered with
    that response, which is stored in the current generation; from then
    on the same request is answered from the cache with the same
    response and without the network, whatever the network would say. *)
Theorem cross_origin_miss_warms_cache :
  ∀ location_origin net net' request (caches : CacheStorage) r,
    origin request ≠ location_origin →
    match_ (url request) caches = None →
    net (url request) = Some r →
    status r = 200 →
    let first := onfetch location_origin net request caches in
    let second := onfetch location_origin net' request (caches_after first) in
    response first = Ok r
    ∧ fetched first = [url request]
    ∧ holds (caches_after first) CACHE_NAME (url request) r
    ∧ response second = Ok r
    ∧ fetched second = []
    ∧ caches_after second = caches_after first.
Proof.
  intros lo net net' request caches r Ho Hm Hn Hs first second.
  assert (Hfirst : first = mkResponded (Ok r) [url request]
            (put CACHE_NAME (url request) r (open CACHE_NAME caches))).
  { unfold first, onfetch. rewrite bool_decide_true by done.
    rewrite Hm, Hn. unfold cache_successful. by rewrite Hs. }
  assert (Hm' : match_ (url request) (caches_after first) = Some r).
  { rewrite Hfirst. cbn. apply match_put_own; [|apply open_has].
    intros n c Hin _.
    assert (Hnone : match_ (url request) (open CACHE_NAME caches) = None)
      by by rewrite match_open.
    destruct (c !! url request) as [r'|] eqn:E; [|done].
    destruct (holds_match (url request) (open CACHE_NAME caches) n r') as [x Hx].
    { by exists c. }
    congruence. }
  unfold second, onfetch. rewrite bool_decide_true by done. rewrite Hm'.
  rewrite Hfirst. cbn. repeat split.
  apply holds_put_same, open_has.
Qed.

(** X2. Write-through, then offline.  When no cache of another name holds
    the URL (as after activation), a same-origin request answered by the
    network with status 200 leaves a copy behind, and the same request
    made while the network is down is answered with that copy. *)
Theorem same_origin_write_through_then_offline :
  ∀ location_origin net net' request (caches : CacheStorage) r,
    origin request = location_origin →
    (∀ name r', holds caches name (url request) r' → name = CACHE_NAME) →
    net (url request) = Some r →
    status r = 200 →
    net' (url request) = None →
    let first := onfetch location_origin net request caches in
    response first = Ok r
    ∧ response (onfetch location_origin net' request (caches_after first)) = Ok r.
Proof.
  intros lo net net' request caches r Ho Hown Hn Hs Hoff first.
  assert (Hfirst : first = mkResponded (Ok r) [url request]
            (put CACHE_NAME (url request) r (open CACHE_NAME caches))).
  { unfold first, onfetch. rewrite bool_decide_false by (intros H; by apply H).
    rewrite Hn. unfold cache_successful. by rewrite Hs. }
  split; [by rewrite Hfirst|].
  unfold onfetch. rewrite bool_decide_false by (intros H; by apply H).
  rewrite Hoff, Hfirst. cbn. rewrite match_put_own; [done| |apply open_has].
  intros n c Hin Hne. destruct (c !! url request) as [r'|] eqn:E; [|done].
  destruct Hne. apply (Hown n r'). apply (holds_open CACHE_NAME). by exists c.
Qed.

(** X3. A stale generation shadows the fresh copy.  [caches.match] looks
    through all caches in creation order: when the oldest cache is not the
    current generation and holds the URL, then even after a same-origin
    request has been answered by the network with status 200 and written
    through, the same request made offline is answered with the old copy
    of that oldest cache. *)
Theorem stale_generation_shadows_write_through :
  ∀ location_origin net net' request name0 (c0 : Cache) (rest : CacheStorage) r0 r,
    origin request = location_origin →
    name0 ≠ CACHE_NAME →
    c0 !! url request = Some r0 →
    net (url request) = Some r →
    status r = 200 →
    net' (url request) = None →
    let caches := (name0, c0) :: rest in
    let first := onfetch location_origin net request caches in
    response first = Ok r
    ∧ holds (caches_after first) CACHE_NAME (url request) r
    ∧ response (onfetch location_origin net' request (caches_after first)) = Ok r0.
Proof.
  intros lo net net' request name0 c0 rest r0 r Ho Hne Hc0 Hn Hs Hoff caches first.
  assert (Hfirst : first = mkResponded (Ok r) [url request]
            (put CACHE_NAME (url request) r (open CACHE_NAME caches))).
  { unfold first, onfetch. rewrite bool_decide_false by (intros H; by apply H).
    rewrite Hn. unfold cache_successful. by rewrite Hs. }
  split; [by rewrite Hfirst|]. split.
  { rewrite Hfirst. cbn [caches_after]. apply holds_put_same, open_has. }
  unfold onfetch. rewrite bool_decide_false by (intros H; by apply H).
  rewrite Hoff, Hfirst. cbn [caches_after].
  assert (Hm : match_ (url request)
                 (put CACHE_NAME (url request) r (open CACHE_NAME caches))
               = Some r0).
  { unfold open, caches. case_bool_decide; cbn;
      rewrite bool_decide_false by done; cbn; by rewrite Hc0. }
  by rewrite Hm.
Qed.

(** X4. The only change a fetch makes to the cache storage: either none,
    or the network has answered 200 and exactly that response, the one
    given to the caller, is put under the request in the current
    generation. *)
Theorem fetch_store_effect :
  ∀ location_origin net request (caches : CacheStorage),
    let done := onfetch location_origin net request caches in
    caches_after done = caches
    ∨ ∃ r, net (url request) = Some r
           ∧ status r = 200
           ∧ response done = Ok r
           ∧ fetched done = [url request]
           ∧ caches_after done
             = put CACHE_NAME (url request) r (open CACHE_NAME caches).
Proof.
  intros lo net request caches done. unfold done, onfetch, cache_successful.
  case_bool_decide.
  - destruct (match_ _ _); cbn; [by left|].
    destruct (net _) as [r|] eqn:Hn; cbn; [|by left].
    destruct (Z.eqb_spec (status r) 200); [right; by exists r|by left].
  - destruct (net _) as [r|] eqn:Hn; cbn.
    + destruct (Z.eqb_spec (status r) 200); [right; by exists r|by left].
    + destruct (match_ _ _); cbn; by left.
Qed.

Lemma keys_open_mono name' (caches : CacheStorage) name :
  name ∈ keys caches → name ∈ keys (open name' caches).
Proof.
  unfold open, keys. case_bool_decide; [done|]. rewrite fmap_app.
  intros Hin. apply elem_of_app. by left.
Qed.

(** X5. A fetch never evicts: every cache that existed still exists, and
    every entry is still there, except possibly the entry of the current
    generation for the requested URL, which may have been replaced. *)
Theorem fetch_preserves_other_entries :
  ∀ location_origin net request (caches : CacheStorage),
    let after := caches_after (onfetch location_origin net request caches) in
    (∀ name, name ∈ keys caches → name ∈ keys after)
    ∧ (∀ name u r,
         holds caches name u r →
         name ≠ CACHE_NAME ∨ u ≠ url request →
         holds after name u r).
Proof.
  intros lo net request caches after. unfold after. split.
  - intros name Hin.
    assert (Hput : ∀ r', name ∈ keys (cache_successful request r' caches)).
    { intros r'. unfold cache_successful. destruct (status r' =? 200)%Z; [|done].
      rewrite keys_put. by apply keys_open_mono. }
    unfold onfetch. case_bool_decide.
    + destruct (match_ _ _); cbn; [done|]. destruct (net _); cbn; auto.
    + destruct (net _); cbn; [auto|]. by destruct (match_ _ _).
  - intros name u r Hh Hne.
    assert (Hput : ∀ r', holds (cache_successful request r' caches) name u r).
    { intros r'. unfold cache_successful. destruct (status r' =? 200)%Z; [|done].
      apply holds_put_other; [|done]. by apply holds_open_mono. }
    unfold onfetch. case_bool_decide.
    + destruct (match_ _ _); cbn; [done|]. destruct (net _); cbn; auto.
    + destruct (net _); cbn; [auto|]. by destruct (match_ _ _).
Qed.

(** *** install *)

Lemma fetchAll_entries net urls l :
  fetchAll net urls = Some l →
  (∀ u r, (u, r) ∈ l → net u = Some r)
  ∧ (∀ u, u ∈ urls → ∃ r, (u, r) ∈ l).
Proof.
  revert l. induction urls as [|u urls IH]; cbn; intros l.
  - intros [= <-]. split; [intros u r H|intros u H]; by apply elem_of_nil in H.
  - destruct (net u) as [r|] eqn:Hn; [|discriminate].
    destruct (addable r); [|discriminate].
    destruct (fetchAll net urls) as [l'|]; [|discriminate].
    intros [= <-]. destruct (IH l' eq_refl) as [H1 H2]. split.
    + intros u' r' Hin. apply elem_of_cons in Hin as [[= -> ->]|Hin]; auto.
    + intros u' Hin. apply elem_of_cons in Hin as [->|Hin].
      * exists r. by left.
      * destruct (H2 u' Hin) as [r' Hr']. exists r'. by right.
Qed.

(** Entries that agree with the network survive [putAll] of entries that
    agree with the network. *)
Lemma holds_putAll_keeps (net : network) name l : ∀ (caches : CacheStorage) n u r,
  (∀ u' r', (u', r') ∈ l → net u' = Some r') →
  holds caches n u r →
  (n = name → net u = Some r) →
  holds (putAll name l caches) n u r.
Proof.
  unfold putAll. induction l as [|[u' r'] l IH]; intros caches n u r Hl Hh Hnet;
    cbn; [done|].
  apply IH; [intros ? ? ?; apply Hl; by right| |done].
  apply holds_put_keeps; [done|]. intros Hn Hu. subst u'.
  specialize (Hl u r' ltac:(by left)). rewrite (Hnet Hn) in Hl. congruence.
Qed.

Lemma holds_putAll_new (net : network) name l : ∀ (caches : CacheStorage) u r,
  (∀ u' r', (u', r') ∈ l → net u' = Some r') →
  name ∈ keys caches →
  (u, r) ∈ l →
  holds (putAll name l caches) name u r.
Proof.
  induction l as [|[u' r'] l IH]; intros caches u r Hl Hk Hin;
    [by apply elem_of_nil in Hin|].
  assert (Hl' : ∀ u0 r0, (u0, r0) ∈ l → net u0 = Some r0)
    by (intros ? ? ?; apply Hl; by right).
  apply elem_of_cons in Hin as [[= -> ->]|Hin].
  - change (putAll name ((u', r') :: l) caches)
      with (putAll name l (put name u' r' caches)).
    apply (holds_putAll_keeps net); [done|by apply holds_put_same|].
    intros _. apply Hl. by left.
  - change (putAll name ((u', r') :: l) caches)
      with (putAll name l (put name u' r' caches)).
    apply IH; [done|by rewrite keys_put|done].
Qed.

Lemma holds_add_or_log_keeps net name (caches : CacheStorage) u' n u r :
  holds caches n u r →
  (n = name → net u = Some r) →
  holds (add_or_log resolve net name caches u') n u r.
Proof.
  intros Hh Hnet. unfold add_or_log, add, addAll.
  destruct (fetchAll net _) as [l|] eqn:E; [|done].
  apply (holds_putAll_keeps net); [|done|done].
  by apply fetchAll_entries in E as [H _].
Qed.

Lemma holds_foldl_add_keeps net name urls : ∀ (caches : CacheStorage) n u r,
  holds caches n u r →
  (n = name → net u = Some r) →
  holds (foldl (add_or_log resolve net name) caches urls) n u r.
Proof.
  induction urls as [|u' urls IH]; intros caches n u r Hh Hnet; cbn; [done|].
  apply IH; [|done]. by apply holds_add_or_log_keeps.
Qed.

Lemma holds_functional (caches : CacheStorage) name u r r' :
  NoDup (keys caches) →
  holds caches name u r → holds caches name u r' → r = r'.
Proof.
  intros Hnd (c & Hin & Hc) (c' & Hin' & Hc').
  assert (c = c'); [|congruence].
  clear Hc Hc'. induction caches as [|[n0 c0] caches IH];
    [by apply elem_of_nil in Hin|].
  cbn in Hnd. apply NoDup_cons in Hnd as [Hn Hnd].
  apply elem_of_cons in Hin as [[= -> ->]|Hin];
    apply elem_of_cons in Hin' as [[= <-]|Hin']; try done.
  - destruct Hn. by eapply keys_elem.
  - simplify_eq. destruct Hn. by eapply keys_elem.
  - by apply IH.
Qed.

Lemma holds_foldl_add_new net name urls : ∀ (caches : CacheStorage) u r,
  name ∈ keys caches →
  u ∈ urls →
  net (resolve u) = Some r →
  addable r = true →
  holds (foldl (add_or_log resolve net name) caches urls) name (resolve u) r.
Proof.
  induction urls as [|u' urls IH]; intros caches u r Hk Hin Hn Ha;
    [by apply elem_of_nil in Hin|].
  cbn. apply elem_of_cons in Hin as [->|Hin].
  - apply holds_foldl_add_keeps; [|done].
    unfold add_or_log, add, addAll. cbn. rewrite Hn, Ha. cbn.
    by apply holds_put_same.
  - apply IH; try done. by rewrite keys_add_or_log.
Qed.

Lemma oninstall_holds_static net (caches : CacheStorage) u :
  (∀ u, u ∈ STATIC_CACHE_FILES → cacheable net (resolve u)) →
  u ∈ STATIC_CACHE_FILES →
  ∃ r, net (resolve u) = Some r
       ∧ holds (store (oninstall resolve net caches)) CACHE_NAME (resolve u) r.
Proof.
  intros Hall Hu. unfold oninstall, addAll.
  destruct (fetchAll_cacheable _ _ (resolved_cacheable resolve _ _ Hall))
    as [l Hl].
  rewrite Hl. cbn [store].
  destruct (fetchAll_entries _ _ _ Hl) as [Hnet Hin].
  assert (Hk : CACHE_NAME ∈ keys (putAll CACHE_NAME l (open CACHE_NAME caches)))
    by (rewrite keys_putAll; apply open_has).
  rewrite (open_again _ _ Hk).
  destruct (Hin (resolve u) (resolved_elem resolve _ _ Hu)) as [r Hr].
  exists r. split; [by apply Hnet|].
  apply holds_foldl_add_keeps; [|intros _; by apply Hnet].
  apply (holds_putAll_new net); [done|apply open_has|done].
Qed.

(** X6. What a successful installation leaves behind: when every file of
    the shell can be cached, the current generation holds, for each of
    them and under the URL it resolves to, the response the network gave,
    and likewise for each CDN file that could be cached.  With cache
    names unique, it holds no other response under that URL: what was
    stored there before has been replaced. *)
Theorem install_fills_current_generation :
  ∀ net (caches : CacheStorage),
    (∀ u, u ∈ STATIC_CACHE_FILES → cacheable net (resolve u)) →
    ∀ u, u ∈ STATIC_CACHE_FILES
         ∨ (u ∈ CDN_CACHE_FILES ∧ cacheable net (resolve u)) →
      ∃ r, net (resolve u) = Some r
           ∧ holds (store (oninstall resolve net caches)) CACHE_NAME (resolve u) r
           ∧ (NoDup (keys caches) →
              ∀ r', holds (store (oninstall resolve net caches)) CACHE_NAME
                      (resolve u) r' → r' = r).
Proof.
  intros net caches Hall u Hu.
  cut (∃ r, net (resolve u) = Some r
            ∧ holds (store (oninstall resolve net caches)) CACHE_NAME (resolve u) r).
  { intros (r & Hn & Hh). exists r. split; [done|]. split; [done|].
    intros Hnd r' Hh'.
    apply (holds_functional (store (oninstall resolve net caches)) CACHE_NAME
             (resolve u)); [|done|done].
    rewrite keys_oninstall. by apply keys_open. }
  destruct Hu as [Hu|[Hu (r & Hn & Ha)]].
  - by apply oninstall_holds_static.
  - exists r. split; [done|]. unfold oninstall, addAll.
    destruct (fetchAll_cacheable _ _ (resolved_cacheable resolve _ _ Hall))
      as [l Hl].
    rewrite Hl. cbn [store].
    assert (Hk : CACHE_NAME ∈ keys (putAll CACHE_NAME l (open CACHE_NAME caches)))
      by (rewrite keys_putAll; apply open_has).
    rewrite (open_again _ _ Hk). by apply holds_foldl_add_new.
Qed.

(** X7. A failed installation writes nothing: when one file of the shell
    cannot be cached, the cache storage holds exactly the entries it held
    before (the current generation has been created, empty, if it was
    missing). *)
Theorem failed_install_writes_nothing :
  ∀ net (caches : CacheStorage) u,
    u ∈ STATIC_CACHE_FILES →
    uncacheable net (resolve u) →
    store (oninstall resolve net caches) = open CACHE_NAME caches
    ∧ ∀ name u' r,
        holds (store (oninstall resolve net caches)) name u' r ↔ holds caches name u' r.
Proof.
  intros net caches u Hin Hu.
  assert (Hs : store (oninstall resolve net caches) = open CACHE_NAME caches).
  { unfold oninstall, addAll.
    by rewrite (fetchAll_uncacheable _ _ _ (resolved_elem resolve _ _ Hin) Hu). }
  split; [done|]. intros name u' r. rewrite Hs. split.
  - apply holds_open.
  - apply holds_open_mono.
Qed.

(** *** activate *)

(** X8. Activation keeps exactly the entries of the current generation:
    an entry is held afterwards if and only if it was held by the current
    generation before.  Activating twice is activating once, and without
    a current generation nothing is left. *)
Theorem activate_keeps_exactly_current :
  ∀ caches : CacheStorage,
    (∀ name u r,
       holds (onactivate caches) name u r
       ↔ name = CACHE_NAME ∧ holds caches name u r)
    ∧ onactivate (onactivate caches) = onactivate caches
    ∧ (CACHE_NAME ∉ keys caches → onactivate caches = []).
Proof.
  intros caches. rewrite !onactivate_filter. split; [|split].
  - intros name u r. unfold holds. split.
    + intros (c & Hin & Hc). apply list_elem_of_filter in Hin as [Hn Hin].
      cbn in Hn. split; [done|]. by exists c.
    + intros [-> (c & Hin & Hc)]. exists c. split; [|done].
      by apply list_elem_of_filter.
  - rewrite list_filter_filter. apply filter_ext_in. intros c _. tauto.
  - apply filter_current_absent.
Qed.

(** X9. Offline after the first visit.  After an installation in which
    every file of the shell could be cached, followed by activation, a
    same-origin request whose URL is the one a file of the shell resolves
    to, made while the network is down, is answered with the response
    that was installed. *)
Theorem shell_served_offline_after_install :
  ∀ net offline (caches : CacheStorage) location_origin request u,
    NoDup (keys caches) →
    (∀ u, u ∈ STATIC_CACHE_FILES → cacheable net (resolve u)) →
    origin request = location_origin →
    u ∈ STATIC_CACHE_FILES →
    url request = resolve u →
    offline (url request) = None →
    ∃ r, net (url request) = Some r
         ∧ response
             (onfetch location_origin offline request
                (onactivate (store (oninstall resolve net caches)))) = Ok r.
Proof.
  intros net offline caches lo request u Hnd Hall Ho Hu Hurl Hoff.
  destruct (oninstall_holds_static net caches u Hall Hu) as (r & Hn & Hh).
  rewrite <- Hurl in Hn, Hh.
  exists r. split; [done|].
  set (installed := store (oninstall resolve net caches)) in *.
  assert (Hnd' : NoDup (keys installed)).
  { unfold installed. rewrite keys_oninstall. by apply keys_open. }
  assert (Hact : holds (onactivate installed) CACHE_NAME (url request) r).
  { rewrite onactivate_filter. destruct Hh as (c & Hin & Hc). exists c.
    split; [|done]. by apply list_elem_of_filter. }
  destruct (holds_match _ _ _ _ Hact) as [r' Hm].
  assert (r' = r) as ->.
  { destruct (match_holds _ _ _ Hm) as [name' (c & Hin & Hc)].
    rewrite onactivate_filter in Hin. apply list_elem_of_filter in Hin as [Heq Hin].
    cbn in Heq. subst name'.
    apply (holds_functional installed CACHE_NAME (url request)); [done| |done].
    by exists c. }
  unfold onfetch. rewrite bool_decide_false by (intros H; by apply H).
  by rewrite Hoff, Hm.
Qed.

End ServiceWorkerComposition.

(** ** The bootstrap: every run *)

Section BootstrapRuns.

Import App.

Lemma outcome_cases (o : ModelManager.outcome) :
  (∃ w, o = ModelManager.Loads w) ∨ (∀ w, o ≠ ModelManager.Loads w).
Proof. destruct o; [right|right|left]; try (intros w; discriminate). eauto. Qed.

Lemma attempts_snoc t e :
  attempts (t ++ [e]) = (attempts t + if is_attempt e then 1 else 0)%nat.
Proof. rewrite attempts_app. by destruct e. Qed.

Lemma delays_snoc t e :
  delays (t ++ [e]) = delays t ++ match e with Sleep ms => [ms] | _ => [] end.
Proof. rewrite delays_app. by destruct e. Qed.

(** One successful attempt of [loadModel], summed up. *)
Lemma loadModel_rec_success fuel h st w :
  model_init h (calls st) = ModelManager.Loads w →
  ∃ st',
    loadModel_rec (S fuel) h st = Some st'
    ∧ attempts (trace st') = S (attempts (trace st))
    ∧ delays (trace st') = delays (trace st)
    ∧ currentAttempt st' = currentAttempt st
    ∧ modelLoaded st' = true
    ∧ ModelManager.isLoaded (manager st') = true
    ∧ is_Some (ModelManager.model (manager st'))
    ∧ ((∀ c, throws h c = false) ∧ final st' = Ready
       ∨ (∃ c, throws h c = true) ∧ final st' = Failed).
Proof.
  intros Hl. destruct h as [mi th], st as [ml ca mg n t]. cbn in Hl.
  cbn [loadModel_rec]. cbn -[attempts delays last]. rewrite Hl.
  cbn -[attempts delays last].
  unfold initializeApp, showError, emit, final. cbn -[attempts delays last].
  destruct (th CanvasManager) eqn:E1; [|destruct (th UIManager) eqn:E2;
    [|destruct (th StatsManager) eqn:E3]];
  (eexists; split; [reflexivity|]; cbn -[attempts delays last];
   rewrite last_snoc, !attempts_snoc, !delays_snoc;
   split; [cbn [is_attempt]; lia|]; split; [by rewrite !app_nil_r|];
   do 3 (split; [reflexivity|]); split; [by eexists|]).
  - right. split; [by exists CanvasManager|done].
  - right. split; [by exists UIManager|done].
  - right. split; [by exists StatsManager|done].
  - left. split; [|done]. by intros [].
Qed.

(** The shapes a bootstrap can take: the first successful load is call
    [k] (of the first three), or the first three calls all fail. *)
Lemma init_run (h : host) :
  ∃ st,
    init h = Some st
    ∧ ((∃ k w,
          (k < 3)%nat
          ∧ model_init h k = ModelManager.Loads w
          ∧ (∀ j w', (j < k)%nat → model_init h j ≠ ModelManager.Loads w')
          ∧ attempts (trace st) = S k
          ∧ delays (trace st) = take k [1000; 2000]
          ∧ currentAttempt st = Z.of_nat (S k)
          ∧ modelLoaded st = true
          ∧ ModelManager.isLoaded (manager st) = true
          ∧ is_Some (ModelManager.model (manager st))
          ∧ ((∀ c, throws h c = false) ∧ final st = Ready
             ∨ (∃ c, throws h c = true) ∧ final st = Failed))
       ∨ ((∀ j w', (j < 3)%nat → model_init h j ≠ ModelManager.Loads w')
          ∧ attempts (trace st) = 3%nat
          ∧ delays (trace st) = [1000; 2000]
          ∧ currentAttempt st = 3
          ∧ modelLoaded st = false
          ∧ final st = Failed)).
Proof.
  unfold init, loadModel.
  change (S (Z.to_nat (MAX_ATTEMPTS - currentAttempt initial))) with 3%nat.
  destruct (outcome_cases (model_init h (calls initial))) as [[w0 H0]|H0].
  { destruct (loadModel_rec_success 2 h initial w0 H0)
      as (st & -> & Ha & Hd & Hc & Hm & Hl & Hs & Hf).
    exists st. split; [done|]. left. exists 0%nat, w0.
    rewrite Ha, Hd, Hc. repeat (split; [done || lia|]). done. }
  rewrite loadModel_rec_failure by exact H0. cbn -[loadModel_rec].
  match goal with |- context [loadModel_rec 2 h ?s] => set (st1 := s) end.
  destruct (outcome_cases (model_init h (calls st1))) as [[w1 H1]|H1].
  { destruct (loadModel_rec_success 1 h st1 w1 H1)
      as (st & -> & Ha & Hd & Hc & Hm & Hl & Hs & Hf).
    exists st. split; [done|]. left. exists 1%nat, w1.
    rewrite Ha, Hd, Hc. change (attempts (trace st1)) with 1%nat.
    split; [lia|]. split; [done|]. split.
    { intros j w' Hj. replace j with 0%nat by lia. apply H0. }
    repeat (split; [done|]). done. }
  rewrite loadModel_rec_failure by exact H1. cbn -[loadModel_rec].
  match goal with |- context [loadModel_rec 1 h ?s] => set (st2 := s) end.
  destruct (outcome_cases (model_init h (calls st2))) as [[w2 H2]|H2].
  { destruct (loadModel_rec_success 0 h st2 w2 H2)
      as (st & -> & Ha & Hd & Hc & Hm & Hl & Hs & Hf).
    exists st. split; [done|]. left. exists 2%nat, w2.
    rewrite Ha, Hd, Hc. change (attempts (trace st2)) with 2%nat.
    split; [lia|]. split; [done|]. split.
    { intros j w' Hj. destruct j as [|[|j]]; [apply H0|apply H1|lia]. }
    repeat (split; [done|]). done. }
  rewrite loadModel_rec_failure by exact H2. cbn -[attempts delays final].
  eexists. split; [reflexivity|]. right. split.
  { intros j w' Hj. destruct j as [|[|[|j]]]; [apply H0|apply H1|apply H2|lia]. }
  repeat (split; [reflexivity|]). reflexivity.
Qed.

(** X10. Every bootstrap ends, on the application or on the error screen,
    after one to three load attempts; the waits between the attempts are
    the first ones of 1000 ms, 2000 ms, so never more than three seconds
    in all, and [currentAttempt] ends as the number of attempts made. *)
Theorem bootstrap_bounded :
  ∀ h : host,
    ∃ st,
      init h = Some st
      ∧ (final st = Ready ∨ final st = Failed)
      ∧ (1 ≤ attempts (trace st) ≤ 3)%nat
      ∧ delays (trace st) = take (pred (attempts (trace st))) [1000; 2000]
      ∧ currentAttempt st = Z.of_nat (attempts (trace st)).
Proof.
  intros h. destruct (init_run h) as (st & Hi & Hrun). exists st.
  split; [done|].
  destruct Hrun as [(k & w & Hk & _ & _ & -> & -> & -> & _ & _ & _ & Hf)
                   |(_ & -> & -> & -> & _ & ->)].
  - split; [destruct Hf as [[_ ->]|[_ ->]]; auto|]. split; [lia|done].
  - split; [by right|]. split; [lia|done].
Qed.

(** X11. The retry schedule up to the first success.  When call [k] of
    [ModelManager.init] (counting from 0, [k < 3]) is the first to
    succeed, the bootstrap makes [k + 1] attempts, waits before them as
    the first [k] of 1000 ms, 2000 ms, ends with [currentAttempt = k + 1]
    and the model loaded, and shows the application exactly when no
    collaborator throws from its [init]. *)
Theorem bootstrap_first_success :
  ∀ (h : host) (k : nat) (w : bool),
    (k < 3)%nat →
    model_init h k = ModelManager.Loads w →
    (∀ j w', (j < k)%nat → model_init h j ≠ ModelManager.Loads w') →
    ∃ st,
      init h = Some st
      ∧ attempts (trace st) = S k
      ∧ delays (trace st) = take k [1000; 2000]
      ∧ currentAttempt st = Z.of_nat k + 1
      ∧ modelLoaded st = true
      ∧ (final st = Ready ↔ ∀ c, throws h c = false)
      ∧ (final st = Failed ↔ ∃ c, throws h c = true).
Proof.
  intros h k w Hk Hload Hfirst. destruct (init_run h) as (st & Hi & Hrun).
  exists st. split; [done|].
  destruct Hrun as [(k' & w' & Hk' & Hload' & Hfirst' & Ha & Hd & Hc & Hm & _ & _ & Hf)
                   |(Hnone & _)]; [|by destruct (Hnone k w Hk)].
  assert (k' = k) as ->.
  { destruct (Nat.lt_trichotomy k' k) as [Hlt|[Heq|Hgt]]; [|done|].
    - by destruct (Hfirst k' w' Hlt).
    - by destruct (Hfirst' k w Hgt). }
  rewrite Ha, Hd, Hc. repeat (split; [done || lia|]).
  destruct Hf as [[Hno ->]|[[c Hc'] ->]]; split; split; try done.
  - intros [c Hc']. by rewrite Hno in Hc'.
  - intros Hno. by rewrite Hno in Hc'.
  - eauto.
Qed.

(** X12. The application is shown only on a loaded model.  Whenever a
    bootstrap ends on the application, [modelLoaded] is set, the model
    manager is loaded, no collaborator has thrown, and [predict] does not
    reject with 'Model not loaded'. *)
Theorem ready_means_model_loaded :
  ∀ (h : host) (st : state),
    init h = Some st →
    final st = Ready →
    modelLoaded st = true
    ∧ ModelManager.isLoaded (manager st) = true
    ∧ (∀ c, throws h c = false)
    ∧ ∀ (ImageData Prediction HostError : Type)
        (try_block : ModelManager.Model → ImageData → result HostError Prediction)
        (imageData : ImageData),
        fst (ModelManager.predict try_block imageData (manager st))
        ≠ Err (ModelManager.Error "Model not loaded").
Proof.
  intros h st Hi Hready. destruct (init_run h) as (st' & Hi' & Hrun).
  assert (st' = st) as -> by congruence.
  destruct Hrun as [(k & w & _ & _ & _ & _ & _ & _ & Hm & Hl & Hs & Hf)
                   |(_ & _ & _ & _ & _ & Hfail)]; [|congruence].
  split; [done|]. split; [done|]. split.
  - destruct Hf as [[Hno _]|[_ Hfail]]; [done|congruence].
  - intros I P E tb img. by apply predict_loaded.
Qed.

End BootstrapRuns.

(** ** StatsManager: persistence *)

Section StatsPersistence.

Import StatsManager.

Lemma or0_json_number x : storable x → or0 (JS.json_number x) = x.
Proof.
  intros [->|(Hn & Hi & Hz)]; [vm_compute; reflexivity|].
  unfold JS.json_number, or0. rewrite Hn, Hi, Hz. cbn -[is_zero is_nan].
  by rewrite Hz, Hn.
Qed.

(** X13. The totals survive a reload.  When the three variables hold
    numbers that JSON can carry (plus zero, or finite and not zero) and
    [localStorage] accepts the write, then after a reload of the page
    [init] restores the three variables and returns the same stats as
    [getStats] did before. *)
Theorem stats_survive_reload :
  ∀ st : state,
    storable (totalPredictions st) →
    storable (totalConfidence st) →
    storable (averageConfidence st) →
    let restored := init (reload (save true st)) in
    totalPredictions (fst restored) = totalPredictions st
    ∧ totalConfidence (fst restored) = totalConfidence st
    ∧ averageConfidence (fst restored) = averageConfidence st
    ∧ snd restored = getStats st.
Proof.
  intros [tp tc ac sto] Hp Hc Ha. cbn in Hp, Hc, Ha.
  unfold init, reload, save, load, getStats. cbn.
  by rewrite !or0_json_number.
Qed.

(** X14. A refused write loses the prediction at the next reload, and
    only then.  When [localStorage] refuses the write of [addPrediction],
    the call returns the same stats as if the write had been accepted,
    and the variables advance all the same, but a reload brings back what
    was stored before the call. *)
Theorem refused_write_is_lost_on_reload :
  ∀ (c : float) (st : state),
    snd (addPrediction false c st) = snd (addPrediction true c st)
    ∧ totalPredictions (fst (addPrediction false c st))
      = (totalPredictions st + 1)%float
    ∧ storage (fst (addPrediction false c st)) = storage st
    ∧ init (reload (fst (addPrediction false c st))) = init (reload st).
Proof. intros c [tp tc ac sto]. repeat split. Qed.

End StatsPersistence.

(** ** CanvasManager *)

Section CanvasFacts.

Import CanvasManager.

Context {L : Type}.

Lemma length_removelast {A} (l : list A) :
  length (removelast l) = pred (length l).
Proof.
  induction l as [|x [|y l] IH]; [done|done|].
  change (removelast (x :: y :: l)) with (x :: removelast (y :: l)).
  cbn [length] in *. lia.
Qed.

Lemma length_tl {A} (l : list A) : length (tail l) = pred (length l).
Proof. by destruct l. Qed.

Lemma removelast_nil_inv {A} (l : list A) :
  removelast l = [] → (length l ≤ 1)%nat.
Proof. intros H. pose proof (length_removelast l) as Hl. rewrite H in Hl. cbn in Hl. lia. Qed.

Lemma consistent_init : consistent (init (initial L)).
Proof.
  unfold consistent, init, initial, strokes; cbn. split; [by eexists|].
  unfold MAX_HISTORY. split; [lia|]. split; [lia|done].
Qed.

Lemma consistent_path_created now p (st : state L) l :
  consistent st → consistent (path_created now p st l).1.
Proof.
  intros ([c Hc] & Hmax & Hlen & Hemp). unfold path_created, strokes in *.
  rewrite Hc in *. unfold saveState, consistent, strokes.
  cbn [fabricCanvas drawingHistory isEmpty objects fst].
  split; [by eexists|].
  assert (Hh : length (drawingHistory st ++ [now])
               = S (length (drawingHistory st)))
    by (rewrite length_app; cbn; lia).
  assert (Ho : length (objects c ++ [p]) = S (length (objects c)))
    by (rewrite length_app; cbn; lia).
  rewrite Ho. unfold MAX_HISTORY in *.
  destruct (Nat.ltb_spec 20 (length (drawingHistory st ++ [now]))) as [Hlt|Hge];
    rewrite ?length_tl, Hh in *;
    (split; [cbn; lia|]; split; [cbn; lia|]; split; [discriminate|]);
    intros H; by destruct (objects c).
Qed.

Lemma consistent_undo (st st' : state L) l l' :
  consistent st → undo st l = Ok (st', l') → consistent st'.
Proof.
  intros ([c Hc] & Hmax & Hlen & Hemp). unfold undo, strokes in *.
  rewrite Hc in *. destruct (objects c) as [|p ps] eqn:Ho.
  { intros [= <- <-]. unfold consistent, strokes. rewrite Hc, Ho.
    split; [by eexists|done]. }
  cbn [objects]. destruct (removelast (p :: ps)) as [|q qs] eqn:Hr;
    intros [= <- <-]; unfold consistent, strokes; cbn [fabricCanvas
      drawingHistory isEmpty objects];
    (split; [by eexists|]); rewrite length_removelast.
  - apply removelast_nil_inv in Hr. cbn in Hr, Hlen.
    split; [lia|]. split; [cbn; lia|done].
  - pose proof (length_removelast (p :: ps)) as Hl. rewrite Hr in Hl.
    cbn in Hl, Hlen |- *. split; [lia|]. split; [lia|].
    split; [|discriminate]. intros H. apply Hemp in H. discriminate.
Qed.

Lemma consistent_clear (st st' : state L) l l' :
  consistent st → clear st l = Ok (st', l') → consistent st'.
Proof.
  intros ([c Hc] & _). unfold clear. rewrite Hc. intros [= <- <-].
  unfold consistent, strokes, MAX_HISTORY. cbn.
  split; [by eexists|]. split; [lia|]. split; [lia|done].
Qed.

Lemma consistent_apply_op o (w : state L * L) :
  consistent w.1 → consistent (apply_op o w).1.
Proof.
  intros H. destruct w as [st l], o as [now p| | |size|callback]; cbn [apply_op fst snd] in *.
  - by apply consistent_path_created.
  - destruct (undo st l) as [[st' l']|e] eqn:E; [|done].
    by eapply consistent_undo.
  - destruct (clear st l) as [[st' l']|e] eqn:E; [|done].
    by eapply consistent_clear.
  - destruct H as ([c Hc] & Hmax & Hlen & Hemp).
    unfold consistent, setBrushSize, strokes in *. rewrite Hc in *. cbn.
    split; [by eexists|done].
  - exact H.
Qed.

Lemma consistent_run ops : ∀ w : state L * L,
  consistent w.1 → consistent (run ops w).1.
Proof.
  induction ops as [|o ops IH]; intros w H; [done|].
  apply IH. by apply consistent_apply_op.
Qed.

(** X15. The canvas manager keeps its variables consistent.  After [init]
    and any sequence of strokes, undos, clears, brush changes and listener
    registrations, [isEmpty] is true exactly when the canvas has no object,
    and the history is no longer than [MAX_HISTORY] nor than the number of
    objects on the canvas. *)
Theorem canvas_stays_consistent :
  ∀ (ops : list (op L)) (l : L),
    let st := (run ops (init (initial L), l)).1 in
    (isEmpty st = true ↔ strokes st = [])
    ∧ (length (drawingHistory st) ≤ MAX_HISTORY)%nat
    ∧ (length (drawingHistory st) ≤ length (strokes st))%nat
    ∧ is_Some (fabricCanvas st).
Proof.
  intros ops l. destruct (consistent_run ops (init (initial L), l))
    as (H1 & H2 & H3 & H4); [apply consistent_init|done].
Qed.

Lemma tail_snoc {A} (l : list A) x : l ≠ [] → tail (l ++ [x]) = tail l ++ [x].
Proof. by destruct l. Qed.

(** X16. Undo takes back the last stroke, however many strokes there are.
    On a consistent canvas manager, a stroke followed by [undo] leaves the
    objects on the canvas, [isEmpty] and the brush size as they were
    before the stroke.  The history is as it was only if it was not full:
    a full history has lost its oldest entry. *)
Theorem undo_takes_back_stroke :
  ∀ (st : state L) (l : L) (now : Z) (p : Path),
    consistent st →
    ∃ st' l',
      undo (path_created now p st l).1 (path_created now p st l).2 = Ok (st', l')
      ∧ strokes st' = strokes st
      ∧ isEmpty st' = isEmpty st
      ∧ currentBrushSize st' = currentBrushSize st
      ∧ drawingHistory st'
        = if (length (drawingHistory st) <? MAX_HISTORY)%nat
          then drawingHistory st
          else tail (drawingHistory st).
Proof.
  intros st l now p ([c Hc] & Hmax & Hlen & Hemp).
  unfold path_created, undo, strokes in *. rewrite Hc in *.
  cbn [fst snd fabricCanvas objects saveState drawingHistory].
  unfold saveState. cbn [fst snd fabricCanvas objects drawingHistory isEmpty
    currentBrushSize onCanvasChange brushWidth].
  destruct (objects c ++ [p]) as [|q qs] eqn:Eo;
    [by destruct (objects c)|]. rewrite <- Eo. rewrite removelast_last.
  assert (Hh : removelast
            (if (MAX_HISTORY <? length (drawingHistory st ++ [now]))%nat
             then tail (drawingHistory st ++ [now])
             else drawingHistory st ++ [now])
          = if (length (drawingHistory st) <? MAX_HISTORY)%nat
            then drawingHistory st else tail (drawingHistory st)).
  { rewrite length_app. cbn [length]. unfold MAX_HISTORY in *.
    destruct (Nat.ltb_spec 20 (length (drawingHistory st) + 1)) as [H1|H1];
      destruct (Nat.ltb_spec (length (drawingHistory st)) 20) as [H2|H2];
      try lia.
    - rewrite tail_snoc by (intros E; rewrite E in H2; cbn in H2; lia).
      apply removelast_last.
    - apply removelast_last. }
  destruct (objects c) as [|o os] eqn:Ec.
  - eexists _, _. split; [reflexivity|].
    cbn [fabricCanvas objects isEmpty currentBrushSize drawingHistory].
    rewrite Hh. split; [done|]. split; [|done]. symmetry. by apply Hemp.
  - eexists _, _. split; [reflexivity|].
    cbn [fabricCanvas objects isEmpty currentBrushSize drawingHistory].
    rewrite Hh. split; [done|]. split; [|done].
    destruct (isEmpty st); [|done]. by destruct Hemp as [He _]; specialize (He eq_refl).
Qed.

(** X17. The listener hears of every change of emptiness, and of nothing
    else.  For a stroke, an undo, a clear or a change of brush size, with
    a listener registered: the listener is either not called, or called
    once with the value [isEmpty] has afterwards; and it is called
    whenever [isEmpty] has changed. *)
Theorem listener_hears_every_change :
  ∀ (o : op L) (st : state L) (l : L) (callback : bool → L → L),
    onCanvasChange st = Some callback →
    (∀ cb, o ≠ SetOnCanvasChange cb) →
    let w' := apply_op o (st, l) in
    (w'.2 = l ∨ w'.2 = callback (isEmpty w'.1) l)
    ∧ (isEmpty w'.1 ≠ isEmpty st → w'.2 = callback (isEmpty w'.1) l)
    ∧ onCanvasChange w'.1 = Some callback.
Proof.
  intros o st l callback Hcb Hop.
  destruct o as [now p| | |size|cb]; cbn [apply_op fst snd].
  - unfold path_created, saveState, notify. destruct (fabricCanvas st); cbn.
    + rewrite Hcb. auto.
    + split; [by left|]. split; [done|done].
  - unfold undo, notify. destruct (fabricCanvas st) as [c|]; cbn;
      [|split; [by left|done]].
    destruct (objects c) as [|q qs]; cbn [fst snd]; [split; [by left|done]|].
    destruct (removelast (q :: qs)); cbn; rewrite ?Hcb; auto.
    split; [by left|done].
  - unfold clear, notify. destruct (fabricCanvas st) as [c|]; cbn;
      [rewrite Hcb; auto|split; [by left|done]].
  - cbn. split; [by left|done].
  - by destruct (Hop cb).
Qed.

End CanvasFacts.

(** ** UIManager: a session on the page *)

Section SessionFacts.

Import UIManager.
Local Open Scope string_scope.

Context {HostError : Type}.
Variable try_block :
  ModelManager.Model → list CanvasManager.Path → result HostError Prediction.

(** What the page's listener does to the page: nothing but setting
    [disabled] to the emptiness it is told. *)
Lemma canvas_changed_page b u :
  canvas_changed b u = mkUi (isPredicting u) b (label u) (toasts u) (displayed u).
Proof. by destruct b. Qed.

(** A canvas operation, seen from the page. *)
Lemma canvas_op_page (o : CanvasManager.op ui) c u :
  CanvasManager.onCanvasChange c = Some canvas_changed →
  (∀ cb, o ≠ CanvasManager.SetOnCanvasChange cb) →
  let w' := CanvasManager.apply_op o (c, u) in
  CanvasManager.onCanvasChange w'.1 = Some canvas_changed
  ∧ (w'.2 = u
     ∨ w'.2 = mkUi (isPredicting u) (CanvasManager.isEmpty w'.1) (label u)
                (toasts u) (displayed u)).
Proof.
  intros Hcb Hop.
  destruct o as [now p| | |size|cb]; cbn [CanvasManager.apply_op fst snd].
  - unfold CanvasManager.path_created, CanvasManager.saveState,
      CanvasManager.notify.
    destruct (CanvasManager.fabricCanvas c); cbn; [|auto].
    rewrite Hcb. auto.
  - unfold CanvasManager.undo, CanvasManager.notify.
    destruct (CanvasManager.fabricCanvas c) as [cv|]; cbn; [|auto].
    destruct (CanvasManager.objects cv) as [|q qs]; cbn [fst snd]; [auto|].
    destruct (removelast (q :: qs)); cbn; rewrite ?Hcb; auto.
  - unfold CanvasManager.clear, CanvasManager.notify.
    destruct (CanvasManager.fabricCanvas c) as [cv|]; cbn; [|auto].
    rewrite Hcb. auto.
  - cbn. auto.
  - by destruct (Hop cb).
Qed.

Lemma well_formed_canvas_op (o : CanvasManager.op ui) w :
  well_formed w →
  (∀ cb, o ≠ CanvasManager.SetOnCanvasChange cb) →
  let w' := CanvasManager.apply_op o (canvas w, page w) in
  well_formed (mkWorld w'.2 w'.1 (stats w) (manager w) (analysing w)).
Proof.
  intros (Hcb & Hcons & Hlen & Hpred) Hop w'.
  destruct (canvas_op_page o (canvas w) (page w) Hcb Hop) as [Hcb' Hpage].
  fold w' in Hcb', Hpage. unfold well_formed. cbn [page canvas analysing].
  split; [done|]. split.
  { apply (consistent_apply_op o (canvas w, page w)). exact Hcons. }
  split; [done|]. by destruct Hpage as [->| ->].
Qed.

Lemma well_formed_startup disabled0 label0 storage0 m :
  well_formed (startup disabled0 label0 storage0 m).
Proof.
  unfold well_formed, startup, init. cbn [page canvas analysing].
  split; [done|]. split.
  { apply (consistent_apply_op
             (CanvasManager.SetOnCanvasChange canvas_changed) (_, mkUi false false None [] [])).
    apply consistent_init. }
  split; [cbn; lia|]. cbn. split; [discriminate|done].
Qed.

Lemma analysing_idle w :
  well_formed w → isPredicting (page w) = false → analysing w = [].
Proof.
  intros (_ & _ & _ & Hpred) Hp. destruct (analysing w); [done|].
  destruct Hpred as [_ H]. rewrite H in Hp; [discriminate|done].
Qed.

Lemma well_formed_handleRecognize w :
  well_formed w → well_formed (handleRecognize w).
Proof.
  intros Hw. pose proof Hw as (Hcb & Hcons & Hlen & Hpred).
  unfold handleRecognize. destruct (isPredicting (page w)) eqn:Hp; [done|].
  rewrite (analysing_idle w Hw Hp). destruct Hcons as ([cv Hcv] & Hrest).
  unfold CanvasManager.getImageData. rewrite Hcv.
  unfold well_formed. cbn. split; [done|]. split; [by split; [eexists|]|].
  split; [lia|]. destruct (label (page w)); split; done.
Qed.

Lemma well_formed_resume i image_ok quota_ok w :
  well_formed w → well_formed (handleRecognize_resume try_block i image_ok quota_ok w).
Proof.
  intros Hw. pose proof Hw as (Hcb & Hcons & Hlen & Hpred).
  unfold handleRecognize_resume.
  destruct (analysing w) as [|img [|img' rest]] eqn:Ha; [done| |cbn in Hlen; lia].
  destruct i as [|i]; cbn [lookup list_lookup]; [|done].
  assert (Hfin : ∀ u st, well_formed (mkWorld (finally u) (canvas w) st (manager w) [])).
  { intros u st. unfold well_formed, finally, setLabel. cbn.
    split; [done|]. split; [done|]. split; [lia|]. split; [discriminate|done]. }
  cbn [delete list_delete].
  destruct image_ok; [|apply Hfin].
  destruct (ModelManager.predict try_block img (manager w)).1; [|apply Hfin].
  destruct (StatsManager.addPrediction _ _ _). apply Hfin.
Qed.

Lemma handleClear_op w :
  is_Some (CanvasManager.fabricCanvas (canvas w)) →
  handleClear w =
    let w' := CanvasManager.apply_op CanvasManager.Clear (canvas w, page w) in
    mkWorld (disableRecognizeButton w'.2) w'.1 (stats w) (manager w) (analysing w).
Proof.
  intros [cv Hcv]. unfold handleClear, with_canvas. cbn.
  unfold CanvasManager.clear. rewrite Hcv. done.
Qed.

Lemma handleUndo_op w :
  handleUndo w =
    let w' := CanvasManager.apply_op CanvasManager.Undo (canvas w, page w) in
    mkWorld w'.2 w'.1 (stats w) (manager w) (analysing w).
Proof.
  unfold handleUndo, with_canvas. cbn.
  destruct (CanvasManager.undo (canvas w) (page w)) as [[c u]|e]; [done|].
  by destruct w.
Qed.

Lemma well_formed_react e w :
  well_formed w → well_formed (react try_block e w).
Proof.
  intros Hw. destruct e as [now p| |i io q| | |size|q]; cbn [react].
  - pose proof (well_formed_canvas_op (CanvasManager.Stroke now p) w Hw) as H.
    cbn in H. destruct (CanvasManager.path_created _ _ _ _). by apply H.
  - destruct (disabled (page w)); [done|]. by apply well_formed_handleRecognize.
  - by apply well_formed_resume.
  - rewrite handleClear_op by apply Hw.
    pose proof (well_formed_canvas_op CanvasManager.Clear w Hw) as H.
    destruct H as (H1 & H2 & H3 & H4); [done|]. by split.
  - rewrite handleUndo_op. by apply (well_formed_canvas_op CanvasManager.Undo).
  - by apply (well_formed_canvas_op (CanvasManager.SetBrushSize size)).
  - unfold handleResetStats. destruct (StatsManager.reset q (stats w)).
    destruct Hw as (H1 & H2 & H3 & H4). by split.
Qed.

Lemma well_formed_session es : ∀ w,
  well_formed w → well_formed (session try_block es w).
Proof.
  induction es as [|e es IH]; intros w Hw; [done|].
  apply IH. by apply well_formed_react.
Qed.

(** X18. One recognition at a time.  From the start of the page and
    through any sequence of strokes, clicks and resumptions, at most one
    call of [handleRecognize] is suspended, [isPredicting] is set exactly
    while one is, the canvas manager stays consistent and its listener
    stays the page's. *)
Theorem one_recognition_at_a_time :
  ∀ (es : list event) disabled0 label0 storage0 m,
    let w := session try_block es (startup disabled0 label0 storage0 m) in
    (length (analysing w) ≤ 1)%nat
    ∧ (isPredicting (page w) = true ↔ analysing w ≠ [])
    ∧ CanvasManager.consistent (canvas w)
    ∧ CanvasManager.onCanvasChange (canvas w) = Some canvas_changed.
Proof.
  intros es d0 l0 s0 m w.
  destruct (well_formed_session es (startup d0 l0 s0 m)) as (H1 & H2 & H3 & H4);
    [apply well_formed_startup|done].
Qed.

(** Whatever its outcome, a resumed recognition ends the same way. *)
Lemma recognition_outcome_frame (w : world) imageData (image_ok quota_ok : bool) :
  analysing w = [imageData] →
  let w' := handleRecognize_resume try_block 0 image_ok quota_ok w in
  canvas w' = canvas w
  ∧ analysing w' = []
  ∧ isPredicting (page w') = false
  ∧ disabled (page w') = false.
Proof.
  intros Ha. unfold handleRecognize_resume.
  rewrite Ha. cbn [lookup list_lookup delete list_delete].
  destruct image_ok; [|by destruct (label (page w))].
  destruct (ModelManager.predict try_block imageData (manager w)).1;
    [|by destruct (label (page w))].
  destruct (StatsManager.addPrediction _ _ _). by destruct (label (page w)).
Qed.

(** X19. What a recognition does to the statistics.  When the suspended
    call of [handleRecognize] resumes: if the image has loaded and
    [predict] resolves, exactly one prediction is added to the stats with
    the confidence of the top prediction, the new stats are displayed and
    the success toast is shown; if the image fails to load or [predict]
    rejects, the stats and their display are untouched and the failure
    toast is shown.  Either way no call is suspended any more,
    [isPredicting] is cleared, the button is enabled and the canvas is
    untouched. *)
Theorem recognition_outcome :
  ∀ (w : world) imageData (image_ok quota_ok : bool),
    analysing w = [imageData] →
    let w' := handleRecognize_resume try_block 0 image_ok quota_ok w in
    let answer := fst (ModelManager.predict try_block imageData (manager w)) in
    (analysing w' = []
     ∧ isPredicting (page w') = false
     ∧ disabled (page w') = false
     ∧ canvas w' = canvas w)
    ∧ (∀ top, image_ok = true → answer = Ok top →
         stats w'
         = fst (StatsManager.addPrediction quota_ok (confidence top) (stats w))
         ∧ StatsManager.totalPredictions (stats w')
           = (StatsManager.totalPredictions (stats w) + 1)%float
         ∧ displayed (page w')
           = (displayed (page w)
              ++ [snd (StatsManager.addPrediction quota_ok (confidence top)
                         (stats w))])%list
         ∧ toasts (page w')
           = (toasts (page w) ++ ["✨ Prediction complete!"])%list)
    ∧ (image_ok = false ∨ (∃ e, answer = Err e) →
         stats w' = stats w
         ∧ displayed (page w') = displayed (page w)
         ∧ toasts (page w')
           = (toasts (page w) ++ ["⚠️ Prediction failed, try again"])%list).
Proof.
  intros w img io q Ha w' answer. unfold w', handleRecognize_resume.
  rewrite Ha. cbn [lookup list_lookup delete list_delete]. fold answer.
  destruct io.
  - destruct answer as [top|e] eqn:E.
    + destruct (StatsManager.addPrediction q (confidence top) (stats w))
        as [st s] eqn:Eadd.
      split; [by destruct (label (page w))|]. split.
      * intros r _ [= <-]. rewrite Eadd. cbn [fst snd stats page].
        split; [done|]. split.
        { replace st with (StatsManager.addPrediction q (confidence top) (stats w)).1
            by by rewrite Eadd.
          unfold StatsManager.addPrediction. cbn [fst]. apply save_totals. }
        by destruct (label (page w)).
      * intros [H|[e H]]; discriminate.
    + split; [by destruct (label (page w))|]. split.
      * intros r _ H. discriminate.
      * intros _. by destruct (label (page w)).
  - split; [by destruct (label (page w))|]. split.
    + intros r H. discriminate.
    + intros _. by destruct (label (page w)).
Qed.

(** X20. The button follows the canvas.  In a session, a stroke leaves
    the canvas not empty and the recognise button enabled; a click on
    clear leaves the canvas empty and the button disabled; a click on
    undo that removes the only object leaves the canvas empty and the
    button disabled. *)
Theorem button_follows_canvas :
  ∀ w : world,
    well_formed w →
    (∀ now p,
       let w' := react try_block (Draw now p) w in
       CanvasManager.isEmpty (canvas w') = false ∧ disabled (page w') = false)
    ∧ (let w' := react try_block ClickClear w in
       CanvasManager.strokes (canvas w') = []
       ∧ CanvasManager.isEmpty (canvas w') = true
       ∧ disabled (page w') = true)
    ∧ (let w' := react try_block ClickUndo w in
       length (CanvasManager.strokes (canvas w)) = 1%nat →
       CanvasManager.strokes (canvas w') = []
       ∧ CanvasManager.isEmpty (canvas w') = true
       ∧ disabled (page w') = true).
Proof.
  intros w (Hcb & ([cv Hcv] & Hrest) & _).
  split; [|split].
  - intros now p. cbn [react]. unfold CanvasManager.path_created,
      CanvasManager.saveState, CanvasManager.notify. rewrite Hcv. cbn.
    rewrite Hcb. done.
  - cbn [react]. unfold handleClear, with_canvas, CanvasManager.clear,
      CanvasManager.notify, CanvasManager.strokes. rewrite Hcv. cbn. done.
  - cbn [react]. unfold handleUndo, with_canvas, CanvasManager.undo,
      CanvasManager.notify, CanvasManager.strokes. rewrite Hcv.
    destruct (CanvasManager.objects cv) as [|q [|q' qs]]; cbn; try discriminate.
    intros _. rewrite Hcb. done.
Qed.

(** X21. A clear during the analysis leaves the button enabled on an empty
    canvas.  In a session with a recognition under way: after a click on
    clear the button is disabled, but when the recognition then resumes
    (whatever its outcome) the button is enabled although the canvas is
    empty, and a click on it starts a recognition of the empty canvas. *)
Theorem clear_during_analysis :
  ∀ (w : world) imageData (image_ok quota_ok : bool),
    well_formed w →
    analysing w = [imageData] →
    let w1 := react try_block ClickClear w in
    let w2 := react try_block (Resume 0 image_ok quota_ok) w1 in
    let w3 := react try_block ClickRecognize w2 in
    disabled (page w1) = true
    ∧ disabled (page w2) = false
    ∧ CanvasManager.strokes (canvas w2) = []
    ∧ CanvasManager.isEmpty (canvas w2) = true
    ∧ analysing w3 = [[]]
    ∧ isPredicting (page w3) = true.
Proof.
  intros w img io q (Hcb & ([cv Hcv] & Hrest) & _) Ha w1 w2 w3.
  assert (H1 : w1 = mkWorld
            (disableRecognizeButton (canvas_changed true (page w)))
            (CanvasManager.mkState (Some (CanvasManager.mkCanvas []
                (CanvasManager.brushWidth cv))) [] true
               (CanvasManager.currentBrushSize (canvas w))
               (CanvasManager.onCanvasChange (canvas w)))
            (stats w) (manager w) [img]).
  { unfold w1. cbn [react]. unfold handleClear, with_canvas, CanvasManager.clear,
      CanvasManager.notify. rewrite Hcv. cbn. rewrite Hcb, Ha. done. }
  assert (H2 : canvas w2 = canvas w1 ∧ analysing w2 = []
               ∧ isPredicting (page w2) = false ∧ disabled (page w2) = false).
  { destruct (recognition_outcome_frame w1 img io q) as (Hx & Hy & Hz & Hc);
      [by rewrite H1|]. done. }
  destruct H2 as (Hc2 & Ha2 & Hp2 & Hd2).
  split; [by rewrite H1|]. split; [done|].
  rewrite Hc2, H1. cbn [canvas]. split; [done|]. split; [done|].
  unfold w3. clearbody w2. destruct w2 as [u2 c2 s2 m2 a2].
  cbn [page canvas analysing] in Hc2, Ha2, Hp2, Hd2. subst c2 a2.
  cbn [react page]. rewrite Hd2. unfold handleRecognize. cbn [page].
  rewrite Hp2, H1. cbn. by destruct (label u2).
Qed.

(** X22. The stored statistics are not displayed when the page starts.
    [UIManager.init] displays the stats before [StatsManager.init] has
    read the storage slot: whatever the slot holds, the one display of the
    start is of total 0 and average 0, while the stats manager ends up
    holding what the slot restores. *)
Theorem startup_displays_zero :
  ∀ disabled0 label0 storage0 m,
    let w := startup disabled0 label0 storage0 m in
    displayed (page w) = [StatsManager.mkStats 0 0]
    ∧ stats w
      = fst (StatsManager.init (StatsManager.mkState 0 0 0 storage0))
    ∧ (∀ n s a, storage0 = Some (Some n, Some s, Some a) →
         is_zero n = false → is_nan n = false →
         StatsManager.totalPredictions (stats w) = n)
    ∧ disabled (page w) = true
    ∧ toasts (page w) = [].
Proof.
  intros d0 l0 s0 m w. unfold w, startup, init.
  cbn [page canvas stats manager analysing fst].
  split; [vm_compute; reflexivity|].
  split; [done|]. split; [|done].
  intros n s a -> Hz Hn. unfold StatsManager.init, StatsManager.load.
  cbn -[is_zero is_nan]. by rewrite Hz, Hn.
Qed.

End SessionFacts.

(** ** The further statements at concrete inputs *)

Section FurtherWitnesses.

Import Sample.
Local Open Scope string_scope.

Lemma cross_origin_miss_warms_cache_witness :
  ServiceWorker.match_ tf_url three_generations = None
  ∧ ServiceWorker.response
      (ServiceWorker.onfetch app_origin offline
         (ServiceWorker.mkRequest tf_url cdn_origin)
         (ServiceWorker.caches_after
            (ServiceWorker.onfetch app_origin cdn_up
               (ServiceWorker.mkRequest tf_url cdn_origin) three_generations)))
    = Ok cached_tf.
Proof.
  assert (Hm : ServiceWorker.match_ tf_url three_generations = None)
    by (vm_compute; reflexivity).
  split; [exact Hm|].
  apply (cross_origin_miss_warms_cache app_origin cdn_up offline
           (ServiceWorker.mkRequest tf_url cdn_origin) three_generations cached_tf);
    [discriminate|exact Hm|reflexivity|reflexivity].
Defined.

Lemma same_origin_write_through_then_offline_witness :
  (∀ name r', ServiceWorker.holds current_only name app_js r' →
              name = ServiceWorker.CACHE_NAME)
  ∧ ServiceWorker.response
      (ServiceWorker.onfetch app_origin offline
         (ServiceWorker.mkRequest app_js app_origin)
         (ServiceWorker.caches_after
            (ServiceWorker.onfetch app_origin online
               (ServiceWorker.mkRequest app_js app_origin) current_only)))
    = Ok fresh_app.
Proof.
  assert (Hown : ∀ name r', ServiceWorker.holds current_only name app_js r' →
                            name = ServiceWorker.CACHE_NAME).
  { intros name r' (c & Hin & _).
    by apply list_elem_of_singleton in Hin as [= -> _]. }
  split; [exact Hown|].
  apply (same_origin_write_through_then_offline app_origin online offline
           (ServiceWorker.mkRequest app_js app_origin) current_only fresh_app);
    [reflexivity|exact Hown|reflexivity|reflexivity|reflexivity].
Defined.

Lemma stale_generation_shadows_write_through_witness :
  "digit-recognition-v0" ≠ ServiceWorker.CACHE_NAME
  ∧ ServiceWorker.response
      (ServiceWorker.onfetch app_origin online
         (ServiceWorker.mkRequest app_js app_origin) three_generations)
    = Ok fresh_app
  ∧ ServiceWorker.response
      (ServiceWorker.onfetch app_origin offline
         (ServiceWorker.mkRequest app_js app_origin)
         (ServiceWorker.caches_after
            (ServiceWorker.onfetch app_origin online
               (ServiceWorker.mkRequest app_js app_origin) three_generations)))
    = Ok stale_app.
Proof.
  assert (Hne : "digit-recognition-v0" ≠ ServiceWorker.CACHE_NAME) by discriminate.
  split; [exact Hne|].
  destruct (stale_generation_shadows_write_through app_origin online offline
              (ServiceWorker.mkRequest app_js app_origin)
              "digit-recognition-v0" {[app_js := stale_app]}
              [ (ServiceWorker.CACHE_NAME, {[app_js := fresh_app]});
                ("another-cache", ∅) ]
              stale_app fresh_app)
    as (H1 & _ & H3);
    [reflexivity|exact Hne|apply lookup_singleton_eq|reflexivity|reflexivity
    |reflexivity|].
  split; [exact H1|exact H3].
Defined.

Lemma fetch_preserves_other_entries_witness :
  ServiceWorker.holds warm ServiceWorker.CACHE_NAME tf_url cached_tf
  ∧ tf_url ≠ app_js
  ∧ ServiceWorker.holds
      (ServiceWorker.caches_after
         (ServiceWorker.onfetch app_origin online
            (ServiceWorker.mkRequest app_js app_origin) warm))
      ServiceWorker.CACHE_NAME tf_url cached_tf.
Proof.
  assert (Hh : ServiceWorker.holds warm ServiceWorker.CACHE_NAME tf_url cached_tf).
  { eexists. split; [left|]. apply lookup_insert_eq. }
  assert (Hne : tf_url ≠ app_js) by discriminate.
  split; [exact Hh|]. split; [exact Hne|].
  apply (proj2 (fetch_preserves_other_entries app_origin online
                  (ServiceWorker.mkRequest app_js app_origin) warm)
           ServiceWorker.CACHE_NAME tf_url cached_tf Hh).
  right. exact Hne.
Defined.

Lemma shell_only_cacheable :
  ∀ u, u ∈ ServiceWorker.STATIC_CACHE_FILES →
       ServiceWorker.cacheable shell_only (resolve u).
Proof.
  intros u H. unfold ServiceWorker.cacheable, shell_only.
  rewrite bool_decide_true by (apply list_elem_of_fmap; by exists u).
  eexists. split; reflexivity.
Qed.

Lemma three_generations_NoDup : NoDup (ServiceWorker.keys three_generations).
Proof.
  cbn. repeat (apply NoDup_cons; split);
    rewrite ?elem_of_cons, ?elem_of_nil; try apply NoDup_nil_2;
    intuition discriminate.
Qed.

Lemma install_fills_current_generation_witness :
  (∀ u, u ∈ ServiceWorker.STATIC_CACHE_FILES →
        ServiceWorker.cacheable shell_only (resolve u))
  ∧ resolve "./js/app.js" = app_js
  ∧ ServiceWorker.holds three_generations ServiceWorker.CACHE_NAME app_js fresh_app
  ∧ ServiceWorker.holds
      (ServiceWorker.store
         (ServiceWorker.oninstall resolve shell_only three_generations))
      ServiceWorker.CACHE_NAME app_js (ServiceWorker.mkResponse 200 app_js)
  ∧ ¬ ServiceWorker.holds
        (ServiceWorker.store
           (ServiceWorker.oninstall resolve shell_only three_generations))
        ServiceWorker.CACHE_NAME app_js fresh_app.
Proof.
  split; [exact shell_only_cacheable|]. split; [reflexivity|]. split.
  { eexists. split; [right; left|]. apply lookup_singleton_eq. }
  destruct (install_fills_current_generation resolve shell_only three_generations
              shell_only_cacheable "./js/app.js")
    as (r & Hn & Hh & Honly).
  { left. unfold ServiceWorker.STATIC_CACHE_FILES. do 3 right. left. }
  assert (r = ServiceWorker.mkResponse 200 app_js) as ->.
  { vm_compute in Hn. by injection Hn as <-. }
  split; [exact Hh|].
  intros Hold. by specialize (Honly three_generations_NoDup _ Hold).
Defined.

Lemma failed_install_writes_nothing_witness :
  "./js/model.js" ∈ ServiceWorker.STATIC_CACHE_FILES
  ∧ ServiceWorker.uncacheable missing_model_js (resolve "./js/model.js")
  ∧ ServiceWorker.store (ServiceWorker.oninstall resolve missing_model_js warm)
    = ServiceWorker.open ServiceWorker.CACHE_NAME warm.
Proof.
  assert (Hin : "./js/model.js" ∈ ServiceWorker.STATIC_CACHE_FILES)
    by (unfold ServiceWorker.STATIC_CACHE_FILES; do 5 right; left).
  assert (Hu : ServiceWorker.uncacheable missing_model_js (resolve "./js/model.js"))
    by (right; eexists; split; reflexivity).
  split; [exact Hin|]. split; [exact Hu|].
  exact (proj1 (failed_install_writes_nothing resolve missing_model_js warm _ Hin Hu)).
Defined.

Lemma shell_served_offline_after_install_witness :
  NoDup (ServiceWorker.keys three_generations)
  ∧ resolve "./index.html" = "https://digits.example/index.html"
  ∧ ServiceWorker.response
      (ServiceWorker.onfetch app_origin offline
         (ServiceWorker.mkRequest "https://digits.example/index.html" app_origin)
         (ServiceWorker.onactivate
            (ServiceWorker.store
               (ServiceWorker.oninstall resolve shell_only three_generations))))
    = Ok (ServiceWorker.mkResponse 200 "https://digits.example/index.html").
Proof.
  split; [exact three_generations_NoDup|]. split; [reflexivity|].
  destruct (shell_served_offline_after_install resolve shell_only offline
              three_generations app_origin
              (ServiceWorker.mkRequest "https://digits.example/index.html" app_origin)
              "./index.html" three_generations_NoDup shell_only_cacheable)
    as (r & Hn & Hr);
    [reflexivity|left|reflexivity|reflexivity|].
  rewrite Hr. vm_compute in Hn. by injection Hn as <-.
Defined.

(** The installed generation holds the eight files of the shell and
    nothing else: the entry it had for the application script has been
    replaced, not doubled. *)
Example installed_generation_size :
  (λ c : string * ServiceWorker.Cache, (c.1, size c.2))
    <$> ServiceWorker.store
          (ServiceWorker.oninstall resolve shell_only three_generations)
  = [ ("digit-recognition-v0", 1%nat);
      (ServiceWorker.CACHE_NAME, 8%nat);
      ("another-cache", 0%nat) ].
Proof. vm_compute. reflexivity. Qed.

Lemma bootstrap_first_success_witness :
  App.model_init second_try 1 = ModelManager.Loads false
  ∧ ∃ st, App.init second_try = Some st
          ∧ App.attempts (App.trace st) = 2%nat
          ∧ App.delays (App.trace st) = [1000]
          ∧ App.currentAttempt st = 2
          ∧ App.final st = App.Ready.
Proof.
  split; [reflexivity|].
  destruct (bootstrap_first_success second_try 1 false)
    as (st & Hi & Ha & Hd & Hc & _ & Hready & _).
  - lia.
  - reflexivity.
  - intros j w' Hj. replace j with 0%nat by lia. discriminate.
  - exists st. split; [exact Hi|]. split; [exact Ha|]. split; [exact Hd|].
    split; [exact Hc|]. apply Hready. reflexivity.
Defined.

Lemma ready_means_model_loaded_witness :
  ∃ st, App.init second_try = Some st
        ∧ App.final st = App.Ready
        ∧ ModelManager.isLoaded (App.manager st) = true
        ∧ fst (ModelManager.predict try_block [0; 255] (App.manager st))
          ≠ Err (ModelManager.Error "Model not loaded").
Proof.
  eexists. split; [vm_compute; reflexivity|].
  split; [vm_compute; reflexivity|].
  match goal with |- context [App.manager ?s] =>
    destruct (ready_means_model_loaded second_try s) as (_ & Hl & _ & Hp);
      [vm_compute; reflexivity|vm_compute; reflexivity|]
  end.
  split; [exact Hl|apply Hp].
Defined.

Lemma stats_survive_reload_witness :
  StatsManager.storable 3%float
  ∧ StatsManager.storable 241.5%float
  ∧ StatsManager.storable 80.5%float
  ∧ snd (StatsManager.init
           (StatsManager.reload (StatsManager.save true three_predictions)))
    = StatsManager.getStats three_predictions.
Proof.
  assert (H1 : StatsManager.storable 3%float) by (right; repeat split).
  assert (H2 : StatsManager.storable 241.5%float) by (right; repeat split).
  assert (H3 : StatsManager.storable 80.5%float) by (right; repeat split).
  split; [exact H1|]. split; [exact H2|]. split; [exact H3|].
  exact (proj2 (proj2 (proj2 (stats_survive_reload three_predictions H1 H2 H3)))).
Defined.

Lemma undo_takes_back_stroke_witness :
  CanvasManager.consistent recording_canvas
  ∧ ∃ st' l',
      CanvasManager.undo
        (CanvasManager.path_created 1700000000000 1%nat recording_canvas []).1
        (CanvasManager.path_created 1700000000000 1%nat recording_canvas []).2
      = Ok (st', l')
      ∧ CanvasManager.strokes st' = []
      ∧ CanvasManager.isEmpty st' = true.
Proof.
  assert (Hc : CanvasManager.consistent recording_canvas).
  { apply (consistent_apply_op (CanvasManager.SetOnCanvasChange _) (_, [])).
    apply consistent_init. }
  split; [exact Hc|].
  destruct (undo_takes_back_stroke recording_canvas [] 1700000000000 1%nat Hc)
    as (st' & l' & Hu & Hs & He & _).
  exists st', l'. split; [exact Hu|]. split; [exact Hs|exact He].
Defined.

Lemma listener_hears_every_change_witness :
  CanvasManager.onCanvasChange recording_canvas = Some (λ b l, (l ++ [b])%list)
  ∧ (CanvasManager.apply_op (CanvasManager.Stroke 1700000000000 1%nat)
       (recording_canvas, [])).2 = [false].
Proof.
  split; [reflexivity|].
  destruct (listener_hears_every_change (CanvasManager.Stroke 1700000000000 1%nat)
              recording_canvas [] (λ b l, (l ++ [b])%list))
    as (_ & Hchanged & _); [reflexivity|discriminate|].
  rewrite Hchanged; [reflexivity|discriminate].
Defined.

Lemma recognition_outcome_witness :
  UIManager.analysing analysing_page = [[1%nat]]
  ∧ StatsManager.totalPredictions
      (UIManager.stats
         (UIManager.handleRecognize_resume sees_seven 0 true true analysing_page))
    = 1%float
  ∧ UIManager.toasts
      (UIManager.page
         (UIManager.handleRecognize_resume sees_seven 0 true true analysing_page))
    = ["✨ Prediction complete!"].
Proof.
  assert (Ha : UIManager.analysing analysing_page = [[1%nat]]) by reflexivity.
  split; [exact Ha|].
  destruct (recognition_outcome sees_seven analysing_page [1%nat] true true Ha)
    as (_ & Hok & _).
  destruct (Hok (UIManager.mkPrediction 7 96.5)) as (_ & Ht & _ & Hto);
    [reflexivity|reflexivity|].
  split; [rewrite Ht; reflexivity|rewrite Hto; reflexivity].
Defined.

Lemma button_follows_canvas_witness :
  UIManager.well_formed fresh_page
  ∧ UIManager.disabled (UIManager.page fresh_page) = true
  ∧ UIManager.disabled
      (UIManager.page (UIManager.react sees_seven (UIManager.Draw 1700000000000 1%nat)
                         fresh_page)) = false.
Proof.
  assert (Hw : UIManager.well_formed fresh_page) by apply well_formed_startup.
  split; [exact Hw|]. split; [reflexivity|].
  exact (proj2 (proj1 (button_follows_canvas sees_seven fresh_page Hw)
                  1700000000000 1%nat)).
Defined.

Lemma clear_during_analysis_witness :
  UIManager.well_formed analysing_page
  ∧ UIManager.analysing analysing_page = [[1%nat]]
  ∧ UIManager.analysing
      (UIManager.session sees_seven
         [UIManager.ClickClear; UIManager.Resume 0 true true;
          UIManager.ClickRecognize] analysing_page)
    = [[]].
Proof.
  assert (Hw : UIManager.well_formed analysing_page).
  { apply well_formed_session, well_formed_startup. }
  assert (Ha : UIManager.analysing analysing_page = [[1%nat]]) by reflexivity.
  split; [exact Hw|]. split; [exact Ha|].
  destruct (clear_during_analysis sees_seven analysing_page [1%nat] true true Hw Ha)
    as (_ & _ & _ & _ & H5 & _).
  exact H5.
Defined.

End FurtherWitnesses.
